(** * Verification of the video assembly pipeline of the reddit video factory

    Shallow embedding of [src/builder.py] ([render_video], its two
    strategies [_render_video_standard] and [_render_video_with_script],
    [concat_audio], [merge_background_audio], [ProgressFfmpeg]) and of
    [RedditVideoFactory._select_comments_for_duration], [_sanitize_folder]
    and [_sanitize_filename] from [src/factory/__init__.py], with
    [_escape_ffmpeg_text] ([src/word_captions.py]) and [extract_thread_id]
    and the post-processing of [fetch_thread] ([src/reddit_fetcher.py]).

    Python floats are modelled as exact rationals [Q]: the properties below
    are about which values are reused and compared, not about rounding.
    The background-audio volume is the exception: it is a [py_float] with
    infinities and NaN, as its two tests disagree on NaN.
    File paths are strings, filter-graph labels are a datatype whose
    constructors stand for the formatted label strings, and the external
    processes (ffmpeg, ffprobe, the TTS engine) are oracles. *)

From Stdlib Require Import List Ascii String QArith Qminmax Bool Arith NArith Lia Lqa Sorted.
Import ListNotations.

Open Scope Q_scope.

(** ** Durations *)

(** Python's [sum] folds left from [0]. *)
Definition py_sum (xs : list Q) : Q := fold_left Qplus xs 0.

(** [total_len = max(0.1, sum(max(0.0, d) for d in image_durations))],
    computed identically at the top of both strategies. *)
Definition total_len (image_durations : list Q) : Q :=
  Qmax (1 # 10) (py_sum (map (fun d => Qmax 0 d) image_durations)).

(** ** Overlay windows

    Both strategies write the enable option [between(t,start,end)].
    ffmpeg's expression evaluator documents [between(x, min, max)] as
    "1 if x is greater than or equal to min and lesser than or equal to
    max, 0 otherwise". *)
Inductive enable_expr : Type :=
| Between (lo hi : Q).

Definition ffmpeg_between (x lo hi : Q) : bool :=
  Qle_bool lo x && Qle_bool x hi.

Definition enabled_at (e : enable_expr) (t : Q) : bool :=
  match e with Between lo hi => ffmpeg_between t lo hi end.

(** ** Strategy 1: ffmpeg-python overlay chaining *)

(** Video streams of the ffmpeg-python graph. *)
Inductive vstream : Type :=
| VInput (path : string)
| VScale (s : vstream) (w h : Z)
| VColorMix (s : vstream) (aa : Q)
| VOverlay (base ov : vstream) (enable : enable_expr) (x y : string).

Definition center_x : string := "(main_w-overlay_w)/2".
Definition center_y : string := "(main_h-overlay_h)/2".

(** [overlay_center] (the closure inside [_render_video_standard]). *)
Definition overlay_center (screenshot_width : Z) (opacity : Q)
    (base : vstream) (img_path : string) (start dur : Q)
    (apply_opacity : bool) : vstream :=
  let v := VScale (VInput img_path) screenshot_width (-1) in
  let v := if apply_opacity then VColorMix v opacity else v in
  VOverlay base v (Between start (start + dur)) center_x center_y.

(** The loop [for i, (p, d) in enumerate(zip(image_paths, image_durations))]
    threading [bg] and [t]; [zip] stops at the shorter list. *)
Fixpoint standard_overlays (screenshot_width : Z) (opacity : Q)
    (i : nat) (t : Q) (bg : vstream)
    (image_paths : list string) (image_durations : list Q) : vstream :=
  match image_paths, image_durations with
  | p :: ps, d :: ds =>
      standard_overlays screenshot_width opacity (S i) (t + d)
        (overlay_center screenshot_width opacity bg p t d (negb (Nat.eqb i 0)))
        ps ds
  | _, _ => bg
  end.

(** A Python float where its comparisons matter: a finite value, the two
    infinities, or NaN, for which every comparison is [False]. *)
Inductive py_float : Type :=
| PyNum (q : Q)
| PyInf
| PyNegInf
| PyNaN.

(** [x <= 0]. *)
Definition py_le0 (x : py_float) : bool :=
  match x with
  | PyNum q => Qle_bool q 0
  | PyInf => false
  | PyNegInf => true
  | PyNaN => false
  end.

(** [x > 0]. *)
Definition py_gt0 (x : py_float) : bool :=
  match x with
  | PyNum q => negb (Qle_bool q 0)
  | PyInf => true
  | PyNegInf => false
  | PyNaN => false
  end.

(** Audio streams. *)
Inductive astream : Type :=
| AInput (path : string)
| AVolume (s : astream) (vol : py_float)
| AMixLongest (a b : astream).

(** Python truthiness of a string. *)
Definition truthy (s : string) : bool := negb (String.eqb s "").

(** Output options of the encoder invocation that bear on timing:
    [-t] and whether [-shortest] is passed. *)
Record output_opts : Type := {
  o_t : Q;
  o_shortest : bool;
}.

(** The ffmpeg-python invocation: video graph, audio graph, options. *)
Record std_invocation : Type := {
  si_video : vstream;
  si_audio : astream;
  si_opts : output_opts;
}.

(** A render request: the arguments of [render_video]. *)
Record render_args : Type := {
  background_mp4 : string;
  out_mp4 : string;
  audio_mp3 : string;
  image_paths : list string;
  image_durations : list Q;
  W : Z;
  H : Z;
  screenshot_width : Z;
  opacity : Q;
  bg_audio_mp3 : option string;
  bg_audio_volume : py_float;
}.

Definition opt_str (o : option string) : string :=
  match o with Some s => s | None => "" end.

Section Filesystem.

(** [os.path.exists] on the file system at render time. *)
Variable exists_file : string -> bool.

(** [merge_background_audio]. *)
Definition merge_background_audio (audio_stream : astream) (bg_mp3 : string)
    (bg_volume : py_float) : astream :=
  if negb (truthy bg_mp3) || py_le0 bg_volume || negb (exists_file bg_mp3)
  then audio_stream
  else AMixLongest audio_stream (AVolume (AInput bg_mp3) bg_volume).

(** [_render_video_standard] up to the [ffmpeg.output(...)] call:
    [shortest=None] makes ffmpeg-python emit the flag [-shortest]. *)
Definition render_video_standard (a : render_args) : std_invocation :=
  let bg := standard_overlays (screenshot_width a) (opacity a) 0 0
              (VInput (background_mp4 a)) (image_paths a) (image_durations a) in
  let bg := VScale bg (W a) (H a) in
  let final_audio := merge_background_audio (AInput (audio_mp3 a))
                       (opt_str (bg_audio_mp3 a)) (bg_audio_volume a) in
  {| si_video := bg; si_audio := final_audio;
     si_opts := {| o_t := total_len (image_durations a); o_shortest := true |} |}.

End Filesystem.

(** ** Strategy 2: filter script

    Labels of the filter script; each constructor stands for one formatted
    label string: [LIn k] is ["[k:v]"], [LInA k] is ["[k:a]"],
    [LImgScaled i] is ["[img{i}scaled]"], [LImgOpaque i] is
    ["[img{i}opaque]"], [LOverlayOut i] is ["[overlay{i}]"], and the last
    three are ["[vout]"], ["[bg_audio]"] and ["[aout]"]. *)
Inductive label : Type :=
| LIn (k : nat)
| LInA (k : nat)
| LImgScaled (i : nat)
| LImgOpaque (i : nat)
| LOverlayOut (i : nat)
| LVout
| LBgAudio
| LAout.

(** One line of the filter script. *)
Inductive filter_line : Type :=
| FScale (src : label) (w h : Z) (dst : label)
| FColorMix (src : label) (aa : Q) (dst : label)
| FOverlay (base ov : label) (enable : enable_expr) (dst : label)
| FVolume (src : label) (vol : py_float) (dst : label)
| FAmix (a b : label) (dst : label)
| FAnull (src : label) (dst : label).

(** The loop of [_render_video_with_script] that appends the scale,
    opacity and overlay lines of each image; it returns the lines and the
    final [current_stream]. *)
Fixpoint script_overlay_lines (screenshot_width : Z) (opacity : Q)
    (i : nat) (t : Q) (current_stream : label)
    (image_paths : list string) (image_durations : list Q)
    : list filter_line * label :=
  match image_paths, image_durations with
  | _ :: ps, dur :: ds =>
      let img_idx := (i + 2)%nat in
      let scaled_label := LImgScaled i in
      let scale_line := FScale (LIn img_idx) screenshot_width (-1) scaled_label in
      let '(opacity_lines, overlay_input) :=
        if negb (Nat.eqb i 0)
        then ([FColorMix scaled_label opacity (LImgOpaque i)], LImgOpaque i)
        else ([], scaled_label) in
      let start_time := t in
      let end_time := t + dur in
      let overlay_line :=
        FOverlay current_stream overlay_input (Between start_time end_time)
          (LOverlayOut i) in
      let '(rest, last) :=
        script_overlay_lines screenshot_width opacity (S i) (t + dur)
          (LOverlayOut i) ps ds in
      (scale_line :: opacity_lines ++ overlay_line :: rest, last)
  | _, _ => ([], current_stream)
  end.

(** The command of the script strategy: its inputs in order, the filter
    script, and the output options. *)
Record script_invocation : Type := {
  sc_inputs : list string;
  sc_filter : list filter_line;
  sc_opts : output_opts;
}.

Section ScriptFilesystem.

Variable exists_file : string -> bool.

(** [bg_audio_mp3 and exists(bg_audio_mp3) and bg_audio_volume > 0], the
    test of both the audio lines and the last input. *)
Definition use_bg_audio (a : render_args) : bool :=
  truthy (opt_str (bg_audio_mp3 a)) && exists_file (opt_str (bg_audio_mp3 a))
  && py_gt0 (bg_audio_volume a).

(** [_render_video_with_script] up to [subprocess.run(cmd)]: the filter
    lines written to the script file, the [-i] inputs of [cmd], and
    [-t str(total_len)] with no [-shortest]. *)
Definition render_video_with_script (a : render_args) : script_invocation :=
  let '(lines, current_stream) :=
    script_overlay_lines (screenshot_width a) (opacity a) 0 0 (LIn 0)
      (image_paths a) (image_durations a) in
  let lines := lines ++ [FScale current_stream (W a) (H a) LVout] in
  let audio_lines :=
    if use_bg_audio a
    then [FVolume (LInA (List.length (image_paths a) + 2)) (bg_audio_volume a) LBgAudio;
          FAmix (LInA 1) LBgAudio LAout]
    else [FAnull (LInA 1) LAout] in
  let inputs :=
    ([background_mp4 a; audio_mp3 a] ++ image_paths a ++
     (if use_bg_audio a then [opt_str (bg_audio_mp3 a)] else []))%list in
  {| sc_inputs := inputs;
     sc_filter := lines ++ audio_lines;
     sc_opts := {| o_t := total_len (image_durations a); o_shortest := false |} |}.

End ScriptFilesystem.

(** ** Errors and external processes

    Stateful code that may raise is modelled in a writer/error monad: the
    list of external processes started, then either a raised exception or
    a result. *)
Inductive exc : Type :=
| ValueError (msg : string)
| RuntimeError (msg : string)
| TypeError (msg : string)
| FfmpegError (msg : string).

Inductive ext_call : Type :=
| RunGraph (inv : std_invocation)
| RunScript (inv : script_invocation)
| RunConcat (audio_paths : list string) (out_mp3 : string)
| RunProbe (path : string). (* a call of [probe_duration] *)

Definition M (A : Type) : Type := list ext_call * (exc + A).

Definition ret {A} (x : A) : M A := ([], inr x).
Definition raise {A} (e : exc) : M A := ([], inl e).
Definition bind {A B} (m : M A) (k : A -> M B) : M B :=
  match m with
  | (tr, inl e) => (tr, inl e)
  | (tr, inr x) => let '(tr', r) := k x in (tr ++ tr', r)
  end.

Notation "x <- m ;; k" := (bind m (fun x => k))
  (at level 61, m at next level, right associativity).

Definition trace {A} (m : M A) : list ext_call := fst m.
Definition outcome {A} (m : M A) : exc + A := snd m.

(** Start an external process; the oracle [ok] says whether it exits 0. *)
Definition run_process (ok : ext_call -> bool) (c : ext_call) (err : string)
    : M unit :=
  ([c], if ok c then inr tt else inl (RuntimeError err)).

Section Render.

Variable exists_file : string -> bool.
Variable ffmpeg_ok : ext_call -> bool.

Definition USE_FILTER_SCRIPT_THRESHOLD : nat := 50.

(** Whether a path occurs twice. *)
Fixpoint has_dup (l : list string) : bool :=
  match l with
  | [] => false
  | x :: r => existsb (String.eqb x) r || has_dup r
  end.

(** ffmpeg-python identifies equal nodes: [ffmpeg.input(p)] twice for one
    path is one input node, and the [scale] filters on it (same upstream,
    same arguments) are one filter node too. With a repeated image path
    that shared [scale] node (or, when both images are past the title, the
    shared [colorchannelmixer] node after it) feeds two downstream nodes
    under the same label, and compiling the graph in [.run()] raises
    [ValueError] before ffmpeg is started. The message names the node
    first; that part is left out here. *)
Definition split_required_msg : string :=
  "multiple outgoing edges with same upstream label None; a `split` filter is probably required".

(** [render_video]: the two precondition checks, then the strategy chosen
    by the number of images. *)
Definition render_video (a : render_args) : M unit :=
  if negb (Nat.eqb (List.length (image_paths a)) (List.length (image_durations a)))
  then raise (ValueError "image_paths and image_durations mismatch")
  else match image_paths a with
  | [] => raise (ValueError "No images provided for video rendering")
  | _ =>
      let use_filter_script :=
        Nat.ltb USE_FILTER_SCRIPT_THRESHOLD (List.length (image_paths a)) in
      if use_filter_script
      then run_process ffmpeg_ok
             (RunScript (render_video_with_script exists_file a)) "ffmpeg failed"
      else if has_dup (image_paths a)
      then raise (ValueError split_required_msg)
      else run_process ffmpeg_ok
             (RunGraph (render_video_standard exists_file a)) "ffmpeg failed"
  end.

(** What [probe_duration(p)] gives: [None] when [ffmpeg.probe], which is
    outside the function's [try], raises [ffmpeg.Error]; else the float of
    the reported duration, [0.0] when it is missing or does not parse. The
    function is [lru_cache]d, so it is taken as a function of the path. *)
Variable probe_duration : string -> option Q.

(** One call of [probe_duration]. *)
Definition probe_call (p : string) : M Q :=
  ([RunProbe p],
   match probe_duration p with
   | Some d => inr d
   | None => inl (FfmpegError "ffprobe error (see stderr output for detail)")
   end).

(** [sum(max(0.0, probe_duration(p)) for p in audio_paths)]: the generator
    probes the paths in order, and an exception ends the sum. *)
Fixpoint sum_probed (ps : list string) (acc : Q) : M Q :=
  match ps with
  | [] => ret acc
  | p :: r => d <- probe_call p ;; sum_probed r (acc + Qmax 0 d)
  end.

(** [concat_audio]: the concatenation process, then the probes of the
    inputs; returns the sum of the clamped probed durations. *)
Definition concat_audio (audio_paths : list string) (out_mp3 : string) : M Q :=
  match audio_paths with
  | [] => raise (ValueError "No audio paths provided for concatenation")
  | _ =>
      _ <- run_process ffmpeg_ok (RunConcat audio_paths out_mp3)
             "ffmpeg failed to concatenate audio files" ;;
      sum_probed audio_paths 0
  end.

End Render.

(** ** Timing views

    What each strategy shows, read back from what it hands to ffmpeg: the
    overlays stacked on the background in order, each with its image, its
    opacity ([None] for an unfiltered image) and its enable expression. *)
Definition overlay_item : Type := (option (string * option Q) * enable_expr)%type.

(** The image behind the overlay input of the ffmpeg-python graph. *)
Definition std_resolve (ov : vstream) : option (string * option Q) :=
  match ov with
  | VColorMix (VScale (VInput p) _ _) aa => Some (p, Some aa)
  | VScale (VInput p) _ _ => Some (p, None)
  | _ => None
  end.

Fixpoint std_chain_view (s : vstream) : list overlay_item :=
  match s with
  | VOverlay base ov en _ _ => std_chain_view base ++ [(std_resolve ov, en)]
  | VScale s' _ _ => std_chain_view s'
  | _ => []
  end.

Definition std_view (inv : std_invocation) : list overlay_item :=
  std_chain_view (si_video inv).

Definition label_eqb (x y : label) : bool :=
  match x, y with
  | LIn a, LIn b | LInA a, LInA b | LImgScaled a, LImgScaled b
  | LImgOpaque a, LImgOpaque b | LOverlayOut a, LOverlayOut b => Nat.eqb a b
  | LVout, LVout | LBgAudio, LBgAudio | LAout, LAout => true
  | _, _ => false
  end.

Definition dst_of (l : filter_line) : label :=
  match l with
  | FScale _ _ _ d | FColorMix _ _ d | FOverlay _ _ _ d
  | FVolume _ _ d | FAmix _ _ d | FAnull _ d => d
  end.

(** The script line whose output label is [l] (labels are defined once). *)
Fixpoint producer (ls : list filter_line) (l : label) : option filter_line :=
  match ls with
  | [] => None
  | x :: r => if label_eqb (dst_of x) l then Some x else producer r l
  end.

(** The input index of the image behind an overlay input label, and the
    opacity applied to it. *)
Definition resolve_input (ls : list filter_line) (l : label)
    : option (nat * option Q) :=
  match producer ls l with
  | Some (FColorMix src aa _) =>
      match producer ls src with
      | Some (FScale (LIn k) _ _ _) => Some (k, Some aa)
      | _ => None
      end
  | Some (FScale (LIn k) _ _ _) => Some (k, None)
  | _ => None
  end.

(** Walk from a video label back to the background input. *)
Fixpoint chain_view (fuel : nat) (ls : list filter_line) (l : label)
    : list (option (nat * option Q) * enable_expr) :=
  match fuel with
  | O => []
  | S f =>
      match producer ls l with
      | Some (FOverlay base ov en _) => chain_view f ls base ++ [(resolve_input ls ov, en)]
      | Some (FScale src _ _ _) => chain_view f ls src
      | _ => []
      end
  end.

Definition lookup_input (inputs : list string)
    (it : option (nat * option Q) * enable_expr) : overlay_item :=
  let '(r, en) := it in
  (match r with
   | Some (k, o) => match nth_error inputs k with Some p => Some (p, o) | None => None end
   | None => None
   end, en).

Definition script_view (inv : script_invocation) : list overlay_item :=
  let ls := sc_filter inv in
  map (lookup_input (sc_inputs inv)) (chain_view (List.length ls) ls LVout).

(** The overlay plan both strategies are compared with: image [i] starts
    at the running sum [t] of the durations before it and has opacity
    [opacity] except the first (title) image. *)
Fixpoint overlay_plan (opacity : Q) (i : nat) (t : Q)
    (image_paths : list string) (image_durations : list Q) : list overlay_item :=
  match image_paths, image_durations with
  | p :: ps, d :: ds =>
      (Some (p, if Nat.eqb i 0 then None else Some opacity), Between t (t + d))
        :: overlay_plan opacity (S i) (t + d) ps ds
  | _, _ => []
  end.

(** The same plan with images named by their ffmpeg input index. *)
Fixpoint plan_idx (opacity : Q) (i : nat) (t : Q)
    (image_paths : list string) (image_durations : list Q)
    : list (option (nat * option Q) * enable_expr) :=
  match image_paths, image_durations with
  | _ :: ps, d :: ds =>
      (Some ((i + 2)%nat, if Nat.eqb i 0 then None else Some opacity), Between t (t + d))
        :: plan_idx opacity (S i) (t + d) ps ds
  | _, _ => []
  end.

(** Index carried by the labels the per-image loop defines. *)
Definition label_index (l : label) : option nat :=
  match l with
  | LImgScaled j | LImgOpaque j | LOverlayOut j => Some j
  | _ => None
  end.

(** ** Comment selection ([_select_comments_for_duration]) *)

(** [RedditComment] of [reddit_fetcher.py]. *)
Record RedditComment : Type := {
  author : string;
  body : string;
  score : Z;
}.

(** What the [try] body learns about comment [i]: [tts_to_mp3] raised,
    [probe_duration] raised, or the probed duration of ["{i}.mp3"]. *)
Inductive tts_outcome : Type :=
| TtsRaised
| ProbeRaised
| Probed (duration : Q).

(** Loop state. MP3 paths [os.path.join(mp3_dir, f"{i}.mp3")] are named by
    their index [i]; [removed] lists the files passed to [os.remove],
    [attempted] the indices for which TTS was started, and [broke] records
    that the loop left through [break]. *)
Record sel_state : Type := {
  selected : list RedditComment;
  mp3_paths : list nat;
  cumulative_duration : Q;
  removed : list nat;
  attempted : list nat;
  broke : bool;
}.

Definition init_state : sel_state :=
  {| selected := []; mp3_paths := []; cumulative_duration := 0;
     removed := []; attempted := []; broke := false |}.

Definition st_attempt (i : nat) (st : sel_state) : sel_state :=
  {| selected := selected st; mp3_paths := mp3_paths st;
     cumulative_duration := cumulative_duration st; removed := removed st;
     attempted := attempted st ++ [i]; broke := broke st |}.

(** [selected.append(comment); mp3_paths.append(mp3_path)], with the
    duration added to [cumulative_duration] on the normal path only. *)
Definition st_append (c : RedditComment) (i : nat) (st : sel_state) : sel_state :=
  {| selected := selected st ++ [c]; mp3_paths := mp3_paths st ++ [i];
     cumulative_duration := cumulative_duration st; removed := removed st;
     attempted := attempted st; broke := broke st |}.

Definition st_add (d : Q) (st : sel_state) : sel_state :=
  {| selected := selected st; mp3_paths := mp3_paths st;
     cumulative_duration := cumulative_duration st + d; removed := removed st;
     attempted := attempted st; broke := broke st |}.

Definition st_remove (i : nat) (st : sel_state) : sel_state :=
  {| selected := selected st; mp3_paths := mp3_paths st;
     cumulative_duration := cumulative_duration st; removed := removed st ++ [i];
     attempted := attempted st; broke := broke st |}.

Definition st_break (st : sel_state) : sel_state :=
  {| selected := selected st; mp3_paths := mp3_paths st;
     cumulative_duration := cumulative_duration st; removed := removed st;
     attempted := attempted st; broke := true |}.

Section Select.

(** The TTS engine and the probe, for a comment body and its index. *)
Variable synth : string -> nat -> tts_outcome.
Variable target_duration : Q.

(** [for i, comment in enumerate(comments)] from index [i]. *)
Fixpoint select_loop (i : nat) (comments : list RedditComment) (st : sel_state)
    : sel_state :=
  match comments with
  | [] => st
  | comment :: rest =>
      let st := st_attempt i st in
      match synth (body comment) i with
      | TtsRaised | ProbeRaised => select_loop (S i) rest st
      | Probed duration =>
          if negb (Qle_bool (cumulative_duration st + duration) target_duration)
          then match selected st with
               | [] => st_break (st_append comment i st)
               | _ => st_break (st_remove i st)
               end
          else select_loop (S i) rest (st_add duration (st_append comment i st))
      end
  end.

Definition select_comments_for_duration (comments : list RedditComment)
    : list RedditComment * list nat :=
  let st := select_loop 0 comments init_state in (selected st, mp3_paths st).

(** The probed duration of the clip ["{i}.mp3"] ([probe_duration] is
    memoised per path, so later probes return the same value). *)
Definition clip_duration (comments : list RedditComment) (i : nat) : Q :=
  match nth_error comments i with
  | Some c => match synth (body c) i with Probed d => d | _ => 0 end
  | None => 0
  end.

End Select.

(** ** Progress monitor ([ProgressFfmpeg]) *)

Record ProgressFfmpeg : Type := {
  pf_duration : Q;
  pf_last : Q;
}.

(** [__init__]: [self.duration = max(0.001, float(duration_seconds))],
    [self._last = 0.0]. *)
Definition progress_init (duration_seconds : Q) : ProgressFfmpeg :=
  {| pf_duration := Qmax (1 # 1000) duration_seconds; pf_last := 0 |}.

(** [_read_seconds]: the last [out_time_ms=(\d+)] marker of the progress
    file, if any, divided by [1_000_000]. *)
Definition read_seconds (marker : option N) : option Q :=
  match marker with
  | Some n => Some ((Z.of_N n # 1) / 1000000)
  | None => None
  end.

(** One iteration of [run]: read, and if a marker was found compute
    [p = max(self._last, min(1.0, sec / self.duration))], store it and pass
    it to the callback (whose exceptions are swallowed). The reported
    values are returned. *)
Definition poll (st : ProgressFfmpeg) (marker : option N)
    : ProgressFfmpeg * list Q :=
  match read_seconds marker with
  | None => (st, [])
  | Some sec =>
      let p := Qmax (pf_last st) (Qmin 1 (sec / pf_duration st)) in
      ({| pf_duration := pf_duration st; pf_last := p |}, [p])
  end.

(** The values passed to the callback over a sequence of polls. *)
Fixpoint run_monitor (st : ProgressFfmpeg) (markers : list (option N)) : list Q :=
  match markers with
  | [] => []
  | m :: ms => let '(st', out) := poll st m in out ++ run_monitor st' ms
  end.

(** The reported values as the spec words them: [min(1.0, elapsed /
    total_duration)], never below the previously reported value. *)
Fixpoint spec_reports (prev total : Q) (elapsed : list (option Q)) : list Q :=
  match elapsed with
  | [] => []
  | None :: es => spec_reports prev total es
  | Some e :: es =>
      let v := Qmax prev (Qmin 1 (e / total)) in v :: spec_reports v total es
  end.

(** ** The call of [render_video] in [make_from_url]

    Python binds keyword arguments against the parameter list; a keyword
    that names no parameter (and no [**kwargs]) raises [TypeError] before
    the body runs. *)
Definition render_video_params : list string :=
  ["background_mp4"; "out_mp4"; "audio_mp3"; "image_paths"; "image_durations";
   "W"; "H"; "screenshot_width"; "opacity"; "bg_audio_mp3"; "bg_audio_volume"]%string.

(** The keywords of the call [render_video(...)] in [make_from_url]. *)
Definition make_from_url_render_kwargs : list string :=
  ["background_mp4"; "out_mp4"; "audio_mp3"; "image_paths"; "image_durations";
   "W"; "H"; "screenshot_width"; "opacity"; "bg_audio_mp3"; "bg_audio_volume";
   "word_captions_filter"]%string.

Definition py_bind_kwargs (params kwargs : list string) : exc + unit :=
  match find (fun k => negb (existsb (String.eqb k) params)) kwargs with
  | Some k => inl (TypeError ("render_video() got an unexpected keyword argument '"
                              ++ k ++ "'")%string)
  | None => inr tt
  end.

Definition call_render_video (exists_file : string -> bool)
    (ffmpeg_ok : ext_call -> bool) (kwargs : list string) (a : render_args)
    : M unit :=
  match py_bind_kwargs render_video_params kwargs with
  | inl e => raise e
  | inr _ => render_video exists_file ffmpeg_ok a
  end.

(** ** Encoder output length

    ffmpeg's documented stopping rule for one video and one audio output
    stream: [-t d] stops writing once the output reaches [d]; without
    [-shortest] the output runs until every stream has ended, with it
    until the shortest has. *)
Definition output_length (o : output_opts) (video_len audio_len : Q) : Q :=
  Qmin (o_t o)
    (if o_shortest o then Qmin video_len audio_len else Qmax video_len audio_len).

(** A render request for concrete inputs. *)
Definition sample_args (paths : list string) (durations : list Q) : render_args :=
  {| background_mp4 := "background.mp4"; out_mp4 := "out.mp4";
     audio_mp3 := "audio.mp3"; image_paths := paths;
     image_durations := durations; W := 1080; H := 1920;
     screenshot_width := 486; opacity := 9 # 10;
     bg_audio_mp3 := None; bg_audio_volume := PyNum 0 |}.


(** 51 images, all the same file: past the threshold. *)
Definition dup51_args : render_args :=
  sample_args (repeat "card.png"%string 51) (repeat 1 51).

(** A comment for concrete runs. *)
Definition sample_comment : RedditComment :=
  {| author := "someone"; body := "A"; score := 1 |}.

(** Lines defined before image [i]'s block carry smaller indices. *)
Definition defined_before (i : nat) (P : list filter_line) : Prop :=
  Forall (fun x => forall j, label_index (dst_of x) = Some j -> (j < i)%nat) P.

(** Lines after the loop define no per-image label. *)
Definition no_image_labels (T : list filter_line) : Prop :=
  Forall (fun x => label_index (dst_of x) = None) T.

(** The loop keeps selected comments and paths paired, returns only
    comments whose synthesis and probe succeeded, and keeps the budget. *)
Definition sel_inv (synth : string -> nat -> tts_outcome) (target_duration : Q)
    (comments : list RedditComment) (st : sel_state) : Prop :=
  Forall2 (fun c j => nth_error comments j = Some c) (selected st) (mp3_paths st)
  /\ (forall j, In j (mp3_paths st) ->
        exists c d, nth_error comments j = Some c /\ synth (body c) j = Probed d)
  /\ (broke st = false ->
        cumulative_duration st = py_sum (map (clip_duration synth comments) (mp3_paths st))
        /\ (mp3_paths st = [] \/ cumulative_duration st <= target_duration))
  /\ (broke st = true ->
        List.length (mp3_paths st) = 1%nat
        \/ (mp3_paths st <> []
            /\ py_sum (map (clip_duration synth comments) (mp3_paths st)) <= target_duration)).

(** ** Python text helpers on ASCII text

    Text handled character by character is modelled as [list ascii]. The
    models below cover ASCII input; Python's [str] methods and [re] classes
    agree with them there. *)

(** [str.isspace] and [re]'s [\s] on ASCII: tab, line feed, vertical tab,
    form feed, carriage return (9-13), the separators 28-31 and space. *)
Definition is_space (c : ascii) : bool :=
  let n := nat_of_ascii c in
  ((9 <=? n) && (n <=? 13)) || ((28 <=? n) && (n <=? 32)).

(** [s or d] for a string. *)
Definition py_or (s d : list ascii) : list ascii :=
  match s with [] => d | _ => s end.

Fixpoint lstrip (s : list ascii) : list ascii :=
  match s with
  | c :: r => if is_space c then lstrip r else s
  | [] => []
  end.

(** [str.strip()] with no argument. *)
Definition py_strip (s : list ascii) : list ascii := rev (lstrip (rev (lstrip s))).

(** ** [_sanitize_filename] ([factory/__init__.py])

    The title (or the word video when it is empty) loses every character of
    the class of the first [re.sub] (question mark, backslash, double quote,
    percent, star, colon, bar, angle brackets); then whitespace runs become
    one space, the result is stripped, and an empty result becomes the word
    video again. *)
Definition dq : ascii := ascii_of_nat 34.

Definition fn_forbidden (c : ascii) : bool :=
  existsb (fun x => Ascii.eqb c x)
    ["?"%char; "\"%char; dq; "%"%char; "*"%char; ":"%char; "|"%char; "<"%char; ">"%char].

(** [re.sub(r"\s+", " ", s)]: each maximal run of whitespace becomes one
    space; [in_run] says whether the previous character was whitespace. *)
Fixpoint collapse_ws (in_run : bool) (s : list ascii) : list ascii :=
  match s with
  | [] => []
  | c :: r =>
      if is_space c
      then if in_run then collapse_ws true r else " "%char :: collapse_ws true r
      else c :: collapse_ws false r
  end.

Definition sanitize_filename (s : list ascii) : list ascii :=
  let s := filter (fun c => negb (fn_forbidden c)) (py_or s (list_ascii_of_string "video")) in
  let s := py_strip (collapse_ws false s) in
  py_or s (list_ascii_of_string "video").

(** ** [_sanitize_folder] ([factory/__init__.py])

    Every character outside the class of word characters, whitespace and
    hyphen is removed, the result is stripped, and an empty result becomes
    the word thread. On ASCII a word character is a letter, a digit or an
    underscore. *)
Definition is_alnum (c : ascii) : bool :=
  let n := nat_of_ascii c in
  ((48 <=? n) && (n <=? 57)) || ((65 <=? n) && (n <=? 90)) || ((97 <=? n) && (n <=? 122)).

Definition folder_keep (c : ascii) : bool :=
  is_alnum c || Ascii.eqb c "_" || is_space c || Ascii.eqb c "-".

Definition sanitize_folder (s : list ascii) : list ascii :=
  py_or (py_strip (filter folder_keep (py_or s []))) (list_ascii_of_string "thread").

(** Shape of a filename that [_sanitize_filename] produces: non-empty, no
    forbidden character, no whitespace but single spaces, none at either
    end. *)
Definition clean_filename (r : list ascii) : Prop :=
  r <> []
  /\ Forall (fun c => fn_forbidden c = false) r
  /\ Forall (fun c => is_space c = true -> c = " "%char) r
  /\ ~ (exists a b, r = a ++ " "%char :: " "%char :: b)
  /\ (forall c, hd_error r = Some c -> is_space c = false)
  /\ (forall c, hd_error (rev r) = Some c -> is_space c = false).

(** ** [_escape_ffmpeg_text] ([word_captions.py]) *)

(** [s.replace(old, new)] for a one-character [old]. *)
Definition py_replace (old : ascii) (new : list ascii) (s : list ascii) : list ascii :=
  flat_map (fun x => if Ascii.eqb x old then new else [x]) s.

Definition bs : ascii := "\"%char.

Definition escape_ffmpeg_text (text : list ascii) : list ascii :=
  let text := py_replace bs [bs; bs] text in
  let text := py_replace "'"%char [bs; "'"%char] text in
  let text := py_replace ":"%char [bs; ":"%char] text in
  let text := py_replace "["%char [bs; "["%char] text in
  py_replace "]"%char [bs; "]"%char] text.

(** Reading escaped text back the way ffmpeg's option parser does: a
    backslash makes the next character literal. *)
Fixpoint unescape (s : list ascii) : list ascii :=
  match s with
  | c :: ((d :: r) as t) => if Ascii.eqb c bs then d :: unescape r else c :: unescape t
  | [c] => [c]
  | [] => []
  end.

Definition quote_special (c : ascii) : bool :=
  existsb (fun x => Ascii.eqb c x) ["'"; ":"; "["; "]"]%char.

(** Whether the text has a quote, colon or bracket not made literal by a
    backslash, or ends in a lone backslash. *)
Fixpoint has_bare_special (s : list ascii) : bool :=
  match s with
  | c :: ((d :: r) as t) => if Ascii.eqb c bs then has_bare_special r
                             else quote_special c || has_bare_special t
  | [c] => Ascii.eqb c bs || quote_special c
  | [] => false
  end.

(** ** The progress bar of both render strategies

    [on_update(p)]: [target = max(0.0, min(100.0, p*100))],
    [delta = target - pbar.n], and [pbar.update(delta)] (which adds
    [delta] to [pbar.n]) when [delta > 0]. *)
Definition pbar_on_update (n p : Q) : Q :=
  let target := Qmax 0 (Qmin 100 (p * 100)) in
  let delta := target - n in
  if Qle_bool delta 0 then n else n + delta.

(** The [finally] block: [if pbar.n < 100: pbar.update(100 - pbar.n)]. *)
Definition pbar_finish (n : Q) : Q :=
  if Qle_bool 100 n then n else n + (100 - n).

(** [pbar.n] after the callbacks [ps], from [tqdm(total=100)] ([n = 0]). *)
Definition pbar_after (ps : list Q) : Q := fold_left pbar_on_update ps 0.

(** ** Case folding and comparison of ASCII text *)

Definition lower_ascii (c : ascii) : ascii :=
  let n := nat_of_ascii c in
  if (65 <=? n) && (n <=? 90) then ascii_of_nat (n + 32) else c.

Definition list_ascii_eqb (a b : list ascii) : bool :=
  String.eqb (string_of_list_ascii a) (string_of_list_ascii b).

(** ** [extract_thread_id] ([reddit_fetcher.py])

    [_THREAD_ID_RE = re.compile(r"/comments/([a-z0-9]{5,10})", re.IGNORECASE)]
    is searched for in the stripped input; otherwise the whole input must
    fullmatch [[a-z0-9]{5,10}] ignoring case. With [re.IGNORECASE] the
    class accepts ASCII letters of both cases and digits. *)
Definition comments_lit : list ascii := list_ascii_of_string "/comments/".

Fixpoint prefix_ci (p s : list ascii) : bool :=
  match p, s with
  | [], _ => true
  | x :: p', y :: s' => Ascii.eqb (lower_ascii x) (lower_ascii y) && prefix_ci p' s'
  | _ :: _, [] => false
  end.

(** Greedy [{0,n}] repetition of the class. *)
Fixpoint take_alnum (n : nat) (s : list ascii) : list ascii :=
  match n, s with
  | S n', c :: r => if is_alnum c then c :: take_alnum n' r else []
  | _, _ => []
  end.

(** The match of the pattern starting at the head of [s], as its group. *)
Definition thread_re_at (s : list ascii) : option (list ascii) :=
  if prefix_ci comments_lit s
  then let g := take_alnum 10 (skipn 10 s) in
       if 5 <=? List.length g then Some g else None
  else None.

(** [re.search]: the leftmost position where the pattern matches. *)
Fixpoint thread_re_search (s : list ascii) : option (list ascii) :=
  match s with
  | [] => None
  | _ :: r => match thread_re_at s with Some g => Some g | None => thread_re_search r end
  end.

Definition bare_id (s : list ascii) : bool :=
  (5 <=? List.length s) && (List.length s <=? 10) && forallb is_alnum s.

Definition extract_thread_id (url_or_id : list ascii) : exc + list ascii :=
  let s := py_strip (py_or url_or_id []) in
  match thread_re_search s with
  | Some g => inr g
  | None =>
      if bare_id s then inr s
      else inl (ValueError ("Could not extract thread id from: "
                            ++ string_of_list_ascii url_or_id)%string)
  end.

(** ** Post-processing in [fetch_thread] ([reddit_fetcher.py])

    The parsed JSON of one entry of [data[1]["data"]["children"]]; an
    absent key is [None]. *)
Record raw_comment : Type := {
  rc_kind : option string;
  rc_body : option (list ascii);
  rc_author : option (list ascii);
  rc_score : option Z;
}.

(** [data[0]["data"]["children"][0]["data"]]. *)
Record raw_post : Type := {
  rp_subreddit : option string;
  rp_title : option (list ascii);
  rp_id : option string;
}.

Record RedditThread : Type := {
  thread_id : string;
  subreddit : string;
  title : list ascii;
  comments : list RedditComment;
}.

Definition opt_or (o : option (list ascii)) (d : list ascii) : list ascii :=
  match o with Some s => py_or s d | None => d end.

(** One iteration of the [for c in raw_comments] loop: the comment kept,
    if any. *)
Definition keep_comment (c : raw_comment) : option RedditComment :=
  match rc_kind c with
  | Some k =>
      if String.eqb k "t1"%string then
        let body := py_strip (opt_or (rc_body c) []) in
        let auth := py_strip (opt_or (rc_author c) (list_ascii_of_string "unknown")) in
        let sc := match rc_score c with Some z => z | None => 0%Z end in
        if (match body with [] => true | _ => false end)
           || list_ascii_eqb body (list_ascii_of_string "[deleted]")
           || list_ascii_eqb body (list_ascii_of_string "[removed]")
        then None
        else if List.length body <? 5 then None
        else Some {| author := string_of_list_ascii auth;
                     body := string_of_list_ascii body; score := sc |}
      else None
  | None => None
  end.

Fixpoint keep_comments (raw : list raw_comment) : list RedditComment :=
  match raw with
  | [] => []
  | c :: r => match keep_comment c with
              | Some rc => rc :: keep_comments r
              | None => keep_comments r
              end
  end.

(** [comments.sort(key=lambda x: x.score, reverse=True)]: Python's sort is
    stable, also with [reverse=True], so comments of equal score keep their
    order. This is the stable sort, one insertion at a time: each comment
    goes after every earlier comment of at least its score. *)
Fixpoint insert_by_score (x : RedditComment) (l : list RedditComment) : list RedditComment :=
  match l with
  | [] => [x]
  | y :: r => if (score y <? score x)%Z then x :: l else y :: insert_by_score x r
  end.

Definition sort_by_score_desc (l : list RedditComment) : list RedditComment :=
  fold_left (fun acc x => insert_by_score x acc) l [].

(** [l[:k]]: a negative [k] drops [-k] elements from the end. *)
Definition py_prefix {A} (l : list A) (k : Z) : list A :=
  if (0 <=? k)%Z then firstn (Z.to_nat k) l
  else firstn (List.length l - Z.to_nat (- k)) l.

(** The order [comments.sort(key=lambda x: x.score, reverse=True)] aims at. *)
Definition score_desc (x y : RedditComment) : Prop := (score y <= score x)%Z.

Definition fetch_thread_result (thread_id_arg : string) (post : raw_post)
    (raw : list raw_comment) (max_comments : Z) (prefer_top : bool) : RedditThread :=
  let subreddit := match rp_subreddit post with Some s => s | None => "unknown"%string end in
  let title := py_strip (opt_or (rp_title post) []) in
  let tid := match rp_id post with Some s => s | None => thread_id_arg end in
  let cs := keep_comments raw in
  let cs := if prefer_top then sort_by_score_desc cs else cs in
  let cs := py_prefix cs max_comments in
  let title := match title with
               | [] => list_ascii_of_string ("Reddit Thread " ++ thread_id_arg)%string
               | _ => title
               end in
  {| thread_id := tid; subreddit := subreddit; title := title; comments := cs |}.


(** ** The progress file ([ProgressFfmpeg._read_seconds])

    [re.findall(r"out_time_ms=(\d+)", content)]: the pattern is tried at
    each position from the left; after a match the scan resumes where the
    match ended. [\d] on ASCII is a digit. *)
Definition is_digit (c : ascii) : bool :=
  let n := nat_of_ascii c in (48 <=? n) && (n <=? 57).

Definition out_time_lit : list ascii := list_ascii_of_string "out_time_ms=".

Fixpoint prefix_cs (p s : list ascii) : bool :=
  match p, s with
  | [], _ => true
  | x :: p', y :: s' => Ascii.eqb x y && prefix_cs p' s'
  | _ :: _, [] => false
  end.

Fixpoint take_digits (s : list ascii) : list ascii :=
  match s with
  | c :: r => if is_digit c then c :: take_digits r else []
  | [] => []
  end.

(** The match at the head of [s], as its group. *)
Definition progress_re_at (s : list ascii) : option (list ascii) :=
  if prefix_cs out_time_lit s
  then match take_digits (skipn 12 s) with [] => None | g => Some g end
  else None.

(** [skip] counts the characters of the last match still to be passed. *)
Fixpoint progress_findall (skip : nat) (s : list ascii) : list (list ascii) :=
  match s with
  | [] => []
  | _ :: r =>
      match skip with
      | S k => progress_findall k r
      | O => match progress_re_at s with
             | Some g => g :: progress_findall (12 + List.length g - 1) r
             | None => progress_findall 0 r
             end
      end
  end.

(** [int(...)] of a string of ASCII digits. *)
Definition digits_value (g : list ascii) : N :=
  fold_left (fun acc c => acc * 10 + N.of_nat (nat_of_ascii c - 48))%N g 0%N.

(** The marker [_read_seconds] uses, [ms[-1]], if any. *)
Definition progress_marker (content : list ascii) : option N :=
  match rev (progress_findall 0 content) with
  | g :: _ => Some (digits_value g)
  | [] => None
  end.

(** [_read_seconds]: [None] when the file is missing or unreadable
    ([content = None]), else the last marker divided by [1_000_000]. *)
Definition read_seconds_file (content : option (list ascii)) : option Q :=
  match content with
  | Some t => read_seconds (progress_marker t)
  | None => None
  end.

(** ** Lemmas on the views *)

Lemma label_eqb_refl (l : label) : label_eqb l l = true.
Proof. destruct l; simpl; try apply Nat.eqb_refl; reflexivity. Qed.

Lemma std_chain_view_overlays sw op ps : forall ds i t bg,
  std_chain_view (standard_overlays sw op i t bg ps ds)
  = std_chain_view bg ++ overlay_plan op i t ps ds.
Proof.
  induction ps as [|p ps IH]; intros [|d ds] i t bg;
    simpl; try now rewrite app_nil_r.
  rewrite IH. unfold overlay_center.
  destruct (Nat.eqb i 0); simpl; rewrite <- app_assoc; reflexivity.
Qed.

Lemma std_view_plan (exists_file : string -> bool) (a : render_args) :
  std_view (render_video_standard exists_file a)
  = overlay_plan (opacity a) 0 0 (image_paths a) (image_durations a).
Proof.
  unfold std_view, render_video_standard. simpl.
  rewrite std_chain_view_overlays. reflexivity.
Qed.

Lemma producer_app (A B : list filter_line) (l : label) :
  producer (A ++ B) l
  = match producer A l with Some x => Some x | None => producer B l end.
Proof.
  induction A as [|x A IH]; simpl; [reflexivity|].
  destruct (label_eqb (dst_of x) l); auto.
Qed.

Lemma producer_none (A : list filter_line) (l : label) :
  Forall (fun x => label_eqb (dst_of x) l = false) A -> producer A l = None.
Proof.
  induction 1 as [|x A Hx _ IH]; simpl; [reflexivity|]. now rewrite Hx.
Qed.

Lemma label_eqb_eq (x y : label) : label_eqb x y = true -> x = y.
Proof.
  destruct x, y; simpl; intro E; try discriminate; try reflexivity;
    apply Nat.eqb_eq in E; subst; reflexivity.
Qed.

Lemma producer_mid (P B R : list filter_line) (l : label) (i : nat) :
  label_index l = Some i -> defined_before i P -> producer B l <> None ->
  producer (P ++ B ++ R) l = producer B l.
Proof.
  intros Hl HP HB. rewrite producer_app, producer_none.
  - rewrite producer_app. destruct (producer B l); [reflexivity|congruence].
  - unfold defined_before in HP. eapply Forall_impl; [|exact HP].
    intros x Hx; cbv beta in *. destruct (label_eqb (dst_of x) l) eqn:E; [|reflexivity].
    apply label_eqb_eq in E. rewrite E in Hx. specialize (Hx i Hl). lia.
Qed.

Lemma script_lines_index sw op ps : forall ds i t cur,
  Forall (fun x => exists j, label_index (dst_of x) = Some j /\ (i <= j)%nat)
    (fst (script_overlay_lines sw op i t cur ps ds)).
Proof.
  induction ps as [|p ps IH]; intros [|d ds] i t cur; simpl; try constructor.
  destruct (Nat.eqb i 0);
    destruct (script_overlay_lines sw op (S i) (t + d) (LOverlayOut i) ps ds)
      as [rest last] eqn:Hr; simpl;
    specialize (IH ds (S i) (t + d) (LOverlayOut i)); rewrite Hr in IH; simpl in IH;
    repeat constructor; try (eexists; split; [reflexivity|lia]);
    (eapply Forall_impl; [|exact IH]); intros x [j [Hj Hle]]; exists j; split; auto; lia.
Qed.

Lemma script_lines_length sw op ps : forall ds i t cur,
  (List.length (plan_idx op i t ps ds)
   <= List.length (fst (script_overlay_lines sw op i t cur ps ds)))%nat.
Proof.
  induction ps as [|p ps IH]; intros [|d ds] i t cur; simpl; try lia.
  destruct (Nat.eqb i 0);
    destruct (script_overlay_lines sw op (S i) (t + d) (LOverlayOut i) ps ds)
      as [rest last] eqn:Hr; simpl;
    specialize (IH ds (S i) (t + d) (LOverlayOut i)); rewrite Hr in IH; simpl in IH;
    rewrite ?length_app; simpl; lia.
Qed.

Lemma producer_block (P B R : list filter_line) (l : label) (i : nat) :
  label_index l = Some i -> defined_before i P -> producer B l <> None ->
  producer ((P ++ B) ++ R) l = producer B l.
Proof. intros. rewrite <- app_assoc. now apply producer_mid with i. Qed.

Lemma chain_view_S f ls l : chain_view (S f) ls l =
  match producer ls l with
  | Some (FOverlay base ov en _) => chain_view f ls base ++ [(resolve_input ls ov, en)]
  | Some (FScale src _ _ _) => chain_view f ls src
  | _ => []
  end.
Proof. reflexivity. Qed.

Lemma app_cons2 {A} (P : list A) x y R : P ++ x :: y :: R = (P ++ [x; y]) ++ R.
Proof. now rewrite <- app_assoc. Qed.

Lemma app_cons3 {A} (P : list A) x y z R :
  P ++ x :: y :: z :: R = (P ++ [x; y; z]) ++ R.
Proof. now rewrite <- app_assoc. Qed.

Lemma defined_before_block i P B :
  defined_before i P ->
  Forall (fun x => label_index (dst_of x) = Some i) B ->
  defined_before (S i) (P ++ B).
Proof.
  unfold defined_before. intros HP HB. apply Forall_app. split.
  - eapply Forall_impl; [|exact HP]. intros x Hx j Hj. specialize (Hx j Hj). lia.
  - eapply Forall_impl; [|exact HB]. intros x Hx j Hj. rewrite Hx in Hj.
    injection Hj as <-. lia.
Qed.

Lemma script_chain sw op ps : forall ds i t cur P T fuel,
  defined_before i P -> no_image_labels T ->
  chain_view (List.length (plan_idx op i t ps ds) + fuel)
    (P ++ fst (script_overlay_lines sw op i t cur ps ds) ++ T)
    (snd (script_overlay_lines sw op i t cur ps ds))
  = chain_view fuel (P ++ fst (script_overlay_lines sw op i t cur ps ds) ++ T) cur
    ++ plan_idx op i t ps ds.
Proof.
  induction ps as [|p ps IH]; intros [|d ds] i t cur P T fuel HP HT;
    try (simpl; now rewrite app_nil_r).
  cbn [script_overlay_lines plan_idx].
  specialize (IH ds (S i) (t + d) (LOverlayOut i)).
  destruct (script_overlay_lines sw op (S i) (t + d) (LOverlayOut i) ps ds)
      as [rest last] eqn:Hr. cbn [fst snd] in *.
  destruct (Nat.eqb i 0) eqn:Hi0; cbn [negb fst snd app List.length].
  - rewrite app_cons2.
    replace (S (List.length (plan_idx op (S i) (t + d) ps ds)) + fuel)%nat
      with (List.length (plan_idx op (S i) (t + d) ps ds) + S fuel)%nat by lia.
    rewrite IH; [| apply defined_before_block; auto; repeat constructor | exact HT].
    rewrite chain_view_S.
    rewrite (producer_block P _ _ (LOverlayOut i) i); auto;
      [| cbn; rewrite Nat.eqb_refl; discriminate].
    cbn [producer dst_of label_eqb]. rewrite Nat.eqb_refl.
    rewrite <- app_assoc. f_equal. cbn [app]. f_equal. f_equal.
    unfold resolve_input.
    rewrite (producer_block P _ _ (LImgScaled i) i); auto;
      [| cbn; rewrite Nat.eqb_refl; discriminate].
    cbn [producer dst_of label_eqb]. rewrite Nat.eqb_refl. reflexivity.
  - rewrite app_cons3.
    replace (S (List.length (plan_idx op (S i) (t + d) ps ds)) + fuel)%nat
      with (List.length (plan_idx op (S i) (t + d) ps ds) + S fuel)%nat by lia.
    rewrite IH; [| apply defined_before_block; auto; repeat constructor | exact HT].
    rewrite chain_view_S.
    rewrite (producer_block P _ _ (LOverlayOut i) i); auto;
      [| cbn; rewrite Nat.eqb_refl; discriminate].
    cbn [producer dst_of label_eqb]. rewrite Nat.eqb_refl.
    rewrite <- app_assoc. f_equal. cbn [app]. f_equal. f_equal.
    unfold resolve_input.
    rewrite (producer_block P _ _ (LImgOpaque i) i); auto;
      [| cbn; rewrite Nat.eqb_refl; discriminate].
    cbn [producer dst_of label_eqb]. rewrite Nat.eqb_refl.
    rewrite (producer_block P _ _ (LImgScaled i) i); auto;
      [| cbn; rewrite Nat.eqb_refl; discriminate].
    cbn [producer dst_of label_eqb]. rewrite Nat.eqb_refl. reflexivity.
Qed.

Lemma nth_error_input2 {A} (x y : A) l i : nth_error (x :: y :: l) (i + 2) = nth_error l i.
Proof. now rewrite Nat.add_comm. Qed.

Lemma lookup_plan op ps : forall ds i t pre extra bg au,
  List.length pre = i ->
  map (lookup_input (bg :: au :: pre ++ ps ++ extra)) (plan_idx op i t ps ds)
  = overlay_plan op i t ps ds.
Proof.
  induction ps as [|p ps IH]; intros [|d ds] i t pre extra bg au Hlen;
    try reflexivity.
  cbn [plan_idx overlay_plan map]. f_equal.
  - unfold lookup_input. rewrite nth_error_input2, nth_error_app2 by lia.
    replace (i - List.length pre)%nat with 0%nat by lia. reflexivity.
  - specialize (IH ds (S i) (t + d) (pre ++ [p]) extra bg au).
    rewrite <- app_assoc in IH. apply IH. rewrite length_app. simpl. lia.
Qed.

Lemma no_input_label_lines sw op ps ds i t cur k :
  Forall (fun x => label_eqb (dst_of x) (LIn k) = false)
    (fst (script_overlay_lines sw op i t cur ps ds)).
Proof.
  eapply Forall_impl; [|apply script_lines_index].
  intros x [j [Hj _]]. destruct (dst_of x); simpl in *; congruence.
Qed.

Lemma no_vout_lines sw op ps ds i t cur :
  Forall (fun x => label_eqb (dst_of x) LVout = false)
    (fst (script_overlay_lines sw op i t cur ps ds)).
Proof.
  eapply Forall_impl; [|apply script_lines_index].
  intros x [j [Hj _]]. destruct (dst_of x); simpl in *; congruence.
Qed.

Lemma script_view_plan (exists_file : string -> bool) (a : render_args) :
  script_view (render_video_with_script exists_file a)
  = overlay_plan (opacity a) 0 0 (image_paths a) (image_durations a).
Proof.
  unfold script_view, render_video_with_script.
  pose proof (script_lines_length (screenshot_width a) (opacity a)
                (image_paths a) (image_durations a) 0 0 (LIn 0)) as Hlen.
  pose proof (script_chain (screenshot_width a) (opacity a) (image_paths a)
                (image_durations a) 0 0 (LIn 0)) as Hch.
  pose proof (no_input_label_lines (screenshot_width a) (opacity a)
                (image_paths a) (image_durations a) 0 0 (LIn 0) 0) as Hin.
  pose proof (no_vout_lines (screenshot_width a) (opacity a)
                (image_paths a) (image_durations a) 0 0 (LIn 0)) as Hvo.
  destruct (script_overlay_lines (screenshot_width a) (opacity a) 0 0 (LIn 0)
              (image_paths a) (image_durations a)) as [lines cur] eqn:Hs.
  cbn [fst snd sc_filter sc_inputs] in *.
  set (audio_lines := if use_bg_audio exists_file a then [FVolume _ _ _; _] else [_]).
  set (T := FScale cur (W a) (H a) LVout :: audio_lines).
  set (pl := plan_idx (opacity a) 0 0 (image_paths a) (image_durations a)) in *.
  assert (HL : (lines ++ [FScale cur (W a) (H a) LVout]) ++ audio_lines = [] ++ lines ++ T)
    by (subst T; rewrite <- app_assoc; reflexivity).
  rewrite HL.
  assert (HT : no_image_labels T)
    by (subst T audio_lines; destruct (use_bg_audio exists_file a); repeat constructor).
  replace (List.length ([] ++ lines ++ T))
    with (S (List.length pl + (List.length lines - List.length pl + List.length audio_lines)))
    by (subst T; rewrite !length_app; cbn [List.length]; lia).
  rewrite chain_view_S, producer_app. cbn [producer app].
  rewrite producer_app, producer_none by exact Hvo.
  subst T. cbn [producer dst_of label_eqb].
  set (e := (List.length lines - List.length pl + List.length audio_lines)%nat).
  pose proof (Hch [] (FScale cur (W a) (H a) LVout :: audio_lines) e) as Hc.
  cbn [app] in Hc. rewrite Hc by first [exact HT | apply Forall_nil]. clear Hc.
  destruct e; cbn [chain_view app].
  - apply (lookup_plan _ _ _ 0 0 []). reflexivity.
  - rewrite producer_app, producer_none by exact Hin.
    subst audio_lines. destruct (use_bg_audio exists_file a); cbn;
      apply (lookup_plan _ _ _ 0 0 []); reflexivity.
Qed.

(** The image [k] of the plan starts at the left fold of the durations
    before it, exactly the value the loop variable [t] holds. *)
Lemma overlay_plan_nth op ps : forall ds i t k o en,
  nth_error (overlay_plan op i t ps ds) k = Some (o, en) <->
  exists p d, nth_error ps k = Some p /\ nth_error ds k = Some d /\
    o = Some (p, if Nat.eqb (i + k) 0 then None else Some op) /\
    en = Between (fold_left Qplus (firstn k ds) t)
                 (fold_left Qplus (firstn k ds) t + d).
Proof.
  induction ps as [|p ps IH]; intros [|d ds] i t k o en.
  - destruct k; simpl; split; [discriminate| intros (? & ? & H & _); discriminate
                              | discriminate | intros (? & ? & H & _); discriminate].
  - destruct k; simpl; split; [discriminate| intros (? & ? & H & _); discriminate
                              | discriminate | intros (? & ? & H & _); discriminate].
  - destruct k; simpl; split; [discriminate| intros (? & ? & _ & H & _); discriminate
                              | discriminate | intros (? & ? & _ & H & _); discriminate].
  - destruct k as [|k]; cbn [overlay_plan nth_error firstn fold_left].
    + rewrite Nat.add_0_r. split.
      * intros H. injection H as <- <-. exists p, d. repeat split.
      * intros (p' & d' & Hp & Hd & -> & ->). injection Hp as ->.
        injection Hd as ->. reflexivity.
    + rewrite IH. replace (S i + k)%nat with (i + S k)%nat by lia. reflexivity.
Qed.

Lemma overlay_plan_length op ps : forall ds i t,
  List.length (overlay_plan op i t ps ds) = Nat.min (List.length ps) (List.length ds).
Proof.
  induction ps as [|p ps IH]; intros [|d ds] i t; simpl; auto.
Qed.

Lemma fold_left_firstn_S (ds : list Q) k d t :
  nth_error ds k = Some d ->
  fold_left Qplus (firstn (S k) ds) t = fold_left Qplus (firstn k ds) t + d.
Proof.
  revert k t. induction ds as [|x ds IH]; intros [|k] t H; simpl in *; try discriminate.
  - injection H as ->. reflexivity.
  - apply IH. exact H.
Qed.

(** Both strategies show the plan. *)
Lemma views_plan (exists_file : string -> bool) (a : render_args) :
  Forall (fun v => v = overlay_plan (opacity a) 0 0 (image_paths a) (image_durations a))
    [std_view (render_video_standard exists_file a);
     script_view (render_video_with_script exists_file a)].
Proof.
  repeat constructor; [apply std_view_plan | apply script_view_plan].
Qed.

Lemma view_nth (v : list overlay_item) (a : render_args) k o en :
  v = overlay_plan (opacity a) 0 0 (image_paths a) (image_durations a) ->
  nth_error v k = Some (o, en) ->
  exists p d, nth_error (image_paths a) k = Some p /\
    nth_error (image_durations a) k = Some d /\
    o = Some (p, if Nat.eqb k 0 then None else Some (opacity a)) /\
    en = Between (py_sum (firstn k (image_durations a)))
                 (py_sum (firstn k (image_durations a)) + d).
Proof. intros -> H. apply overlay_plan_nth in H. exact H. Qed.

Lemma py_sum_acc (l : list Q) (a : Q) : fold_left Qplus l a == a + fold_left Qplus l 0.
Proof.
  revert a. induction l as [|x l IH]; intro a; simpl.
  - ring.
  - rewrite IH, (IH (0 + x)). ring.
Qed.

Lemma py_sum_clamped_nonneg (ds : list Q) :
  Forall (Qle 0) ds -> py_sum (map (fun d => Qmax 0 d) ds) == py_sum ds.
Proof.
  unfold py_sum. induction 1 as [|d ds Hd _ IH]; simpl; [reflexivity|].
  rewrite py_sum_acc, (py_sum_acc ds), IH, Q.max_r by exact Hd. reflexivity.
Qed.

Lemma total_len_sum (ds : list Q) :
  Forall (Qle 0) ds -> (1 # 10) <= py_sum ds -> total_len ds == py_sum ds.
Proof.
  intros Hnn Hge. unfold total_len. rewrite py_sum_clamped_nonneg by exact Hnn.
  apply Q.max_r. exact Hge.
Qed.

Lemma enabled_at_between lo hi t :
  enabled_at (Between lo hi) t = true <-> lo <= t /\ t <= hi.
Proof.
  unfold enabled_at, ffmpeg_between. rewrite andb_true_iff, !Qle_bool_iff.
  reflexivity.
Qed.

Lemma script_opts (exists_file : string -> bool) (a : render_args) :
  sc_opts (render_video_with_script exists_file a)
  = {| o_t := total_len (image_durations a); o_shortest := false |}.
Proof.
  unfold render_video_with_script.
  destruct (script_overlay_lines _ _ _ _ _ _ _). reflexivity.
Qed.

(** ** Render stage: claims *)

(** C1 (corrected). In both strategies image [k] is overlaid with
    [between(t, s_k, s_k + d_k)] where [s_k] is the running sum of the
    durations before it: the first window starts at [0] and each next one
    starts at the previous end. The declared total (the [-t] value) is
    [max(0.1, sum(max(0, d)))], equal to the sum of the durations when they
    are non-negative and sum to at least [0.1]; durations [[2.0, 3.0]] give
    windows starting at [0] and [2] and a total of [5]. *)
Theorem render_windows_partition (exists_file : string -> bool) (a : render_args) :
  Forall (fun v =>
    (forall k o en, nth_error v k = Some (o, en) ->
       exists d, nth_error (image_durations a) k = Some d /\
         en = Between (py_sum (firstn k (image_durations a)))
                      (py_sum (firstn k (image_durations a)) + d))
    /\ (forall o en, nth_error v 0 = Some (o, en) -> exists hi, en = Between 0 hi)
    /\ (forall k o lo hi o' lo' hi',
          nth_error v k = Some (o, Between lo hi) ->
          nth_error v (S k) = Some (o', Between lo' hi') -> lo' = hi))
    [std_view (render_video_standard exists_file a);
     script_view (render_video_with_script exists_file a)]
  /\ o_t (si_opts (render_video_standard exists_file a)) = total_len (image_durations a)
  /\ o_t (sc_opts (render_video_with_script exists_file a)) = total_len (image_durations a)
  /\ (Forall (Qle 0) (image_durations a) -> (1 # 10) <= py_sum (image_durations a) ->
      total_len (image_durations a) == py_sum (image_durations a))
  /\ (image_durations a = [2; 3] -> List.length (image_paths a) = 2%nat ->
      map snd (std_view (render_video_standard exists_file a)) = [Between 0 2; Between 2 5]
      /\ map snd (script_view (render_video_with_script exists_file a))
         = [Between 0 2; Between 2 5]
      /\ total_len (image_durations a) == 5).
Proof.
  rewrite script_opts.
  split; [|split; [reflexivity|split; [reflexivity|split]]].
  - eapply Forall_impl; [|apply views_plan]. intros v Hv. cbv beta in Hv.
    split; [|split].
    + intros k o en H. destruct (view_nth v a k o en Hv H) as (p & d & _ & Hd & _ & He).
      exists d. split; assumption.
    + intros o en H. destruct (view_nth v a 0 o en Hv H) as (p & d & _ & _ & _ & He).
      exists (0 + d). exact He.
    + intros k o lo hi o' lo' hi' H H'.
      destruct (view_nth v a k _ _ Hv H) as (p & d & _ & Hd & _ & He).
      destruct (view_nth v a (S k) _ _ Hv H') as (p' & d' & _ & _ & _ & He').
      injection He as -> ->. injection He' as -> ->.
      unfold py_sum. apply fold_left_firstn_S. exact Hd.
  - apply total_len_sum.
  - intros Hds Hps. rewrite std_view_plan, script_view_plan, Hds.
    destruct (image_paths a) as [|p1 [|p2 [|p3 ps]]]; try discriminate.
    split; [reflexivity|split; [reflexivity|]]. vm_compute. reflexivity.
Qed.

(** C1 counterexample: one zero-length image; the declared total is [0.1],
    not the sum [0]. *)
Lemma render_total_not_sum :
  ~ (o_t (si_opts (render_video_standard (fun _ => false)
                     (sample_args ["title.png"%string] [0]))) == py_sum [0]).
Proof. intro H. vm_compute in H. discriminate. Qed.

(** The [-t] value of both strategies and what it bounds. Both pass
    [total_len = max(0.1, sum(max(0, d)))], computed from the image
    durations alone; the output is never longer, and it is exactly that
    long when both streams are at least that long. The inline strategy
    also passes [-shortest], the script strategy does not. *)
Lemma render_output_cap (exists_file : string -> bool) (a : render_args)
    (video_len audio_len : Q) :
  o_t (si_opts (render_video_standard exists_file a)) = total_len (image_durations a)
  /\ o_t (sc_opts (render_video_with_script exists_file a)) = total_len (image_durations a)
  /\ total_len (image_durations a)
     = Qmax (1 # 10) (py_sum (map (fun d => Qmax 0 d) (image_durations a)))
  /\ output_length (si_opts (render_video_standard exists_file a)) video_len audio_len
     <= total_len (image_durations a)
  /\ output_length (sc_opts (render_video_with_script exists_file a)) video_len audio_len
     <= total_len (image_durations a)
  /\ (total_len (image_durations a) <= video_len ->
      total_len (image_durations a) <= audio_len ->
      output_length (si_opts (render_video_standard exists_file a)) video_len audio_len
        == total_len (image_durations a)
      /\ output_length (sc_opts (render_video_with_script exists_file a)) video_len audio_len
        == total_len (image_durations a))
  /\ (Forall (Qle 0) (image_durations a) -> (1 # 10) <= py_sum (image_durations a) ->
      total_len (image_durations a) == py_sum (image_durations a))
  /\ o_shortest (si_opts (render_video_standard exists_file a)) = true
  /\ o_shortest (sc_opts (render_video_with_script exists_file a)) = false.
Proof.
  rewrite script_opts. unfold output_length. cbn [o_t o_shortest si_opts].
  set (T := total_len (image_durations a)).
  split; [reflexivity|]. split; [reflexivity|]. split; [reflexivity|].
  split; [apply Q.le_min_l|]. split; [apply Q.le_min_l|].
  split; [|split; [apply total_len_sum|split; reflexivity]].
  intros Hv Ha. split; apply Q.min_l.
  - apply Q.min_glb; assumption.
  - apply Q.max_le_iff. left. exact Hv.
Qed.

(** C2 (code bug). Both strategies pass the same [-t] cap, but only the
    inline one passes [-shortest]. When the narration is shorter than the
    cap and the background video is not, the inline output ends with the
    narration, before the cap, while the script output runs to the cap:
    the cap is neither reached regardless of the stream lengths nor
    applied identically by the two strategies. *)
Theorem render_cap_shortest_divergence (exists_file : string -> bool) (a : render_args)
    (video_len audio_len : Q) :
  audio_len < total_len (image_durations a) ->
  total_len (image_durations a) <= video_len ->
  o_t (si_opts (render_video_standard exists_file a))
    = o_t (sc_opts (render_video_with_script exists_file a))
  /\ output_length (si_opts (render_video_standard exists_file a)) video_len audio_len
     == audio_len
  /\ output_length (sc_opts (render_video_with_script exists_file a)) video_len audio_len
     == total_len (image_durations a).
Proof.
  intros Ha Hv. rewrite script_opts. unfold output_length, render_video_standard.
  cbn [o_t o_shortest si_opts].
  split; [reflexivity|split].
  - transitivity (Qmin video_len audio_len).
    + apply Q.min_r. apply Qle_trans with audio_len; [apply Q.le_min_r|].
      apply Qlt_le_weak. exact Ha.
    + apply Q.min_r. apply Qle_trans with (total_len (image_durations a));
        [apply Qlt_le_weak; exact Ha|exact Hv].
  - apply Q.min_l. apply Q.max_le_iff. left. exact Hv.
Qed.

(** One 5 s image, 1 s of narration, a background of 5 s: the inline
    output lasts 1 s, the script output 5 s. *)
Lemma render_cap_shortest_divergence_witness :
  o_t (si_opts (render_video_standard (fun _ => false) (sample_args ["title.png"%string] [5])))
    = o_t (sc_opts (render_video_with_script (fun _ => false)
                      (sample_args ["title.png"%string] [5])))
  /\ output_length (si_opts (render_video_standard (fun _ => false)
                               (sample_args ["title.png"%string] [5]))) 5 1 == 1
  /\ output_length (sc_opts (render_video_with_script (fun _ => false)
                               (sample_args ["title.png"%string] [5]))) 5 1
     == total_len (image_durations (sample_args ["title.png"%string] [5])).
Proof.
  apply (render_cap_shortest_divergence (fun _ => false)
           (sample_args ["title.png"%string] [5]) 5 1).
  - vm_compute. reflexivity.
  - vm_compute. intro H. discriminate.
Defined.

(** C3 (code bug). For a request that passes the preconditions,
    [render_video] takes the script strategy exactly when there are more
    than [USE_FILTER_SCRIPT_THRESHOLD] (50) images. Both strategies show the
    same overlays in the same order with the same windows (title
    unfiltered, later images at [opacity]) and pass the same [-t] value,
    but their timing is not the same: only the inline strategy passes
    [-shortest], and with a repeated image path the inline strategy
    raises [ValueError] without starting ffmpeg, where the script strategy
    renders. *)
Theorem render_strategy_divergence (exists_file : string -> bool)
    (ffmpeg_ok : ext_call -> bool) (a : render_args) :
  List.length (image_paths a) = List.length (image_durations a) ->
  image_paths a <> [] ->
  trace (render_video exists_file ffmpeg_ok a)
  = (if Nat.ltb USE_FILTER_SCRIPT_THRESHOLD (List.length (image_paths a))
     then [RunScript (render_video_with_script exists_file a)]
     else if has_dup (image_paths a) then []
     else [RunGraph (render_video_standard exists_file a)])
  /\ (Nat.ltb USE_FILTER_SCRIPT_THRESHOLD (List.length (image_paths a)) = false ->
      has_dup (image_paths a) = true ->
      outcome (render_video exists_file ffmpeg_ok a) = inl (ValueError split_required_msg))
  /\ std_view (render_video_standard exists_file a)
     = script_view (render_video_with_script exists_file a)
  /\ std_view (render_video_standard exists_file a)
     = overlay_plan (opacity a) 0 0 (image_paths a) (image_durations a)
  /\ o_t (si_opts (render_video_standard exists_file a))
     = o_t (sc_opts (render_video_with_script exists_file a))
  /\ o_shortest (si_opts (render_video_standard exists_file a)) = true
  /\ o_shortest (sc_opts (render_video_with_script exists_file a)) = false.
Proof.
  intros Hlen Hne. rewrite std_view_plan, script_view_plan, script_opts.
  split; [|split; [|split; [reflexivity|split; [reflexivity|split; [reflexivity|split; reflexivity]]]]].
  - unfold render_video, trace. rewrite Hlen, Nat.eqb_refl. cbn [negb].
    destruct (image_paths a) as [|p ps]; [congruence|].
    destruct (Nat.ltb _ _); [reflexivity|]. destruct (has_dup _); reflexivity.
  - intros Hlt Hd. unfold render_video, outcome. rewrite Hd, Hlt, Hlen, Nat.eqb_refl.
    cbn [negb]. destruct (image_paths a) as [|p ps]; [congruence|reflexivity].
Qed.

(** 51 copies of one card: past the threshold, with a repeated path and
    images after the title. *)
Lemma render_strategy_divergence_witness :
  trace (render_video (fun _ => false) (fun _ => true) dup51_args)
  = (if Nat.ltb USE_FILTER_SCRIPT_THRESHOLD (List.length (image_paths dup51_args))
     then [RunScript (render_video_with_script (fun _ => false) dup51_args)]
     else if has_dup (image_paths dup51_args) then []
     else [RunGraph (render_video_standard (fun _ => false) dup51_args)])
  /\ (Nat.ltb USE_FILTER_SCRIPT_THRESHOLD (List.length (image_paths dup51_args)) = false ->
      has_dup (image_paths dup51_args) = true ->
      outcome (render_video (fun _ => false) (fun _ => true) dup51_args)
      = inl (ValueError split_required_msg))
  /\ std_view (render_video_standard (fun _ => false) dup51_args)
     = script_view (render_video_with_script (fun _ => false) dup51_args)
  /\ std_view (render_video_standard (fun _ => false) dup51_args)
     = overlay_plan (opacity dup51_args) 0 0 (image_paths dup51_args) (image_durations dup51_args)
  /\ o_t (si_opts (render_video_standard (fun _ => false) dup51_args))
     = o_t (sc_opts (render_video_with_script (fun _ => false) dup51_args))
  /\ o_shortest (si_opts (render_video_standard (fun _ => false) dup51_args)) = true
  /\ o_shortest (sc_opts (render_video_with_script (fun _ => false) dup51_args)) = false.
Proof.
  apply (render_strategy_divergence (fun _ => false) (fun _ => true) dup51_args);
    [reflexivity | discriminate].
Defined.

(** The failing input of C3 on concrete requests: two copies of one card
    make the inline strategy raise with no process started, while 51
    copies of it go to the script strategy and are rendered. *)
Lemma render_dup_paths_inline_only :
  render_video (fun _ => false) (fun _ => true)
    (sample_args ["card.png"%string; "card.png"%string] [1; 1])
  = ([], inl (ValueError split_required_msg))
  /\ render_video (fun _ => false) (fun _ => true) dup51_args
     = ([RunScript (render_video_with_script (fun _ => false) dup51_args)], inr tt).
Proof. split; reflexivity. Qed.

(** C6 (corrected). In both strategies image [k], starting at [s_k], is
    enabled exactly for [s_k <= t <= s_k + d_k]: ffmpeg's [between] is
    inclusive on both ends, so two consecutive non-negative windows are
    both enabled at their shared boundary [s_k + d_k]. An image of
    duration [0] is enabled at the single instant [t = s_k] (the render
    functions are total, nothing raises), and the next image still starts
    at [s_k]. *)
Theorem overlay_windows_closed (exists_file : string -> bool) (a : render_args) :
  Forall (fun v =>
    forall k o en d,
      nth_error v k = Some (o, en) ->
      nth_error (image_durations a) k = Some d ->
      (forall t, enabled_at en t = true <->
         py_sum (firstn k (image_durations a)) <= t
         /\ t <= py_sum (firstn k (image_durations a)) + d)
      /\ (d == 0 -> forall t, enabled_at en t = true <->
            t == py_sum (firstn k (image_durations a)))
      /\ (forall o' en' d',
            nth_error v (S k) = Some (o', en') ->
            nth_error (image_durations a) (S k) = Some d' ->
            0 <= d -> 0 <= d' ->
            enabled_at en (py_sum (firstn k (image_durations a)) + d) = true
            /\ enabled_at en' (py_sum (firstn k (image_durations a)) + d) = true)
      /\ (d == 0 -> py_sum (firstn (S k) (image_durations a))
                    == py_sum (firstn k (image_durations a))))
    [std_view (render_video_standard exists_file a);
     script_view (render_video_with_script exists_file a)].
Proof.
  eapply Forall_impl; [|apply views_plan]. intros v Hv. cbv beta in Hv.
  intros k o en d H Hd.
  destruct (view_nth v a k o en Hv H) as (p & d0 & _ & Hd0 & _ & ->).
  rewrite Hd in Hd0. injection Hd0 as <-.
  set (s := py_sum (firstn k (image_durations a))).
  assert (Hs : py_sum (firstn (S k) (image_durations a)) = s + d)
    by (apply fold_left_firstn_S; exact Hd).
  split; [|split; [|split]].
  - intro t. apply enabled_at_between.
  - intros Hz t. rewrite enabled_at_between. split; [intros [H1 H2]|intro H1]; lra.
  - intros o' en' d' H' Hd' H0 H0'.
    destruct (view_nth v a (S k) o' en' Hv H') as (p' & d1 & _ & Hd1 & _ & ->).
    rewrite Hd' in Hd1. injection Hd1 as <-. rewrite Hs.
    rewrite !enabled_at_between. split; split; lra.
  - intro Hz. rewrite Hs. lra.
Qed.

(** C6 counterexample: durations [[2.0, 3.0]]; at [t = 2], the end of the
    first window, both overlays are enabled. *)
Lemma window_boundary_double_match :
  map (fun it => enabled_at (snd it) 2)
    (std_view (render_video_standard (fun _ => false)
                 (sample_args ["title.png"%string; "comment_0.png"%string] [2; 3])))
  = [true; true].
Proof. vm_compute. reflexivity. Qed.

(** C7 (confirmed). [render_video] raises [ValueError] with no external
    process started when the two lists differ in length or when there is
    no image, and [concat_audio] does the same on an empty list. *)
Theorem render_preconditions_fail_fast (exists_file : string -> bool)
    (ffmpeg_ok : ext_call -> bool) (probe_duration : string -> option Q)
    (a : render_args) (out_mp3 : string) :
  (List.length (image_paths a) <> List.length (image_durations a) ->
   render_video exists_file ffmpeg_ok a
   = ([], inl (ValueError "image_paths and image_durations mismatch")))
  /\ (image_paths a = [] ->
      trace (render_video exists_file ffmpeg_ok a) = []
      /\ exists msg, outcome (render_video exists_file ffmpeg_ok a) = inl (ValueError msg))
  /\ concat_audio ffmpeg_ok probe_duration [] out_mp3
     = ([], inl (ValueError "No audio paths provided for concatenation")).
Proof.
  split; [|split; [|reflexivity]].
  - intro Hne. unfold render_video.
    destruct (Nat.eqb_spec (List.length (image_paths a)) (List.length (image_durations a)));
      [contradiction|reflexivity].
  - intro Hnil. unfold render_video. rewrite Hnil.
    destruct (Nat.eqb _ _); cbn; split; eauto.
Qed.

(** C10 (code bug). [make_from_url] passes [word_captions_filter=...] to
    [render_video], which has no such parameter: the call raises
    [TypeError] before any process is started, so no caption filter is ever
    applied to the output. *)
Theorem make_from_url_render_call_type_error (exists_file : string -> bool)
    (ffmpeg_ok : ext_call -> bool) (a : render_args) :
  ~ In "word_captions_filter"%string render_video_params
  /\ In "word_captions_filter"%string make_from_url_render_kwargs
  /\ call_render_video exists_file ffmpeg_ok make_from_url_render_kwargs a
     = ([], inl (TypeError
           "render_video() got an unexpected keyword argument 'word_captions_filter'")).
Proof.
  split; [|split].
  - vm_compute. intuition discriminate.
  - vm_compute. intuition.
  - reflexivity.
Qed.

(** ** Comment selection: lemmas *)

Lemma py_sum_snoc (l : list Q) (x : Q) : py_sum (l ++ [x]) = py_sum l + x.
Proof. unfold py_sum. rewrite fold_left_app. reflexivity. Qed.

Section SelectProofs.

Variable synth : string -> nat -> tts_outcome.
Variable target_duration : Q.


(** [break] ends the loop: the rest of the list is never looked at. *)
Lemma select_loop_app pre : forall post i st,
  broke st = false ->
  select_loop synth target_duration i (pre ++ post) st
  = let st' := select_loop synth target_duration i pre st in
    if broke st' then st' else select_loop synth target_duration (i + List.length pre) post st'.
Proof.
  induction pre as [|c pre IH]; intros post i st Hb; cbn [app select_loop].
  - rewrite Hb, Nat.add_0_r. reflexivity.
  - destruct (synth (body c) i) as [| |d].
    + rewrite IH by exact Hb. cbn [List.length]. now rewrite Nat.add_succ_r.
    + rewrite IH by exact Hb. cbn [List.length]. now rewrite Nat.add_succ_r.
    + destruct (negb _).
      * destruct (selected (st_attempt i st)); reflexivity.
      * rewrite IH by exact Hb. cbn [List.length]. now rewrite Nat.add_succ_r.
Qed.

Lemma select_loop_attempted cs : forall i st,
  broke st = false -> broke (select_loop synth target_duration i cs st) = false ->
  attempted (select_loop synth target_duration i cs st) = attempted st ++ seq i (List.length cs).
Proof.
  induction cs as [|c cs IH]; intros i st Hb Hb'; cbn [select_loop List.length seq] in *.
  - now rewrite app_nil_r.
  - destruct (synth (body c) i) as [| |d].
    + rewrite IH by assumption. cbn. now rewrite <- app_assoc.
    + rewrite IH by assumption. cbn. now rewrite <- app_assoc.
    + destruct (negb _).
      * destruct (selected (st_attempt i st)); discriminate.
      * rewrite IH by assumption. cbn. now rewrite <- app_assoc.
Qed.

Lemma selected_grows cs : forall i st,
  selected st <> [] -> selected (select_loop synth target_duration i cs st) <> [].
Proof.
  induction cs as [|c cs IH]; intros i st Hs; cbn [select_loop]; [exact Hs|].
  destruct (synth (body c) i) as [| |d]; try (apply IH; exact Hs).
  destruct (negb _).
  - destruct (selected (st_attempt i st)) eqn:E; cbn in *; congruence.
  - apply IH. cbn. intro H. apply app_eq_nil in H. destruct H; discriminate.
Qed.

Lemma sel_inv_init comments : sel_inv synth target_duration comments init_state.
Proof.
  repeat split; cbn; try contradiction; try discriminate; auto.
Qed.

Lemma sel_inv_loop comments cs : forall i st,
  (forall k, nth_error comments (i + k) = nth_error cs k) ->
  broke st = false -> sel_inv synth target_duration comments st ->
  sel_inv synth target_duration comments (select_loop synth target_duration i cs st).
Proof.
  induction cs as [|c cs IH]; intros i st Hc Hb Hinv; cbn [select_loop]; [exact Hinv|].
  assert (Hci : nth_error comments i = Some c)
    by (specialize (Hc 0%nat); rewrite Nat.add_0_r in Hc; exact Hc).
  assert (Hc' : forall k, nth_error comments (S i + k) = nth_error cs k)
    by (intro k; rewrite Nat.add_succ_comm; apply (Hc (S k))).
  pose proof Hinv as (Hpair & Hok & Hun & _).
  destruct (synth (body c) i) as [| |d] eqn:Hsy.
  - apply IH; auto.
  - apply IH; auto.
  - destruct (Qle_bool (cumulative_duration (st_attempt i st) + d) target_duration)
      eqn:Hle; cbn [negb].
    + apply IH; auto. cbn. apply Qle_bool_iff in Hle. cbn in Hle.
      destruct (Hun Hb) as [Hcum _].
      assert (Hd : clip_duration synth comments i = d) by (unfold clip_duration; now rewrite Hci, Hsy).
      split; [|split; [|split]].
      * apply Forall2_app; auto.
      * intros j Hj. apply in_app_or in Hj. destruct Hj as [Hj|[<-|[]]]; eauto.
      * intros _. cbn [mp3_paths st_add st_append st_attempt cumulative_duration].
        rewrite map_app. cbn [map]. rewrite py_sum_snoc, Hd, <- Hcum. split; [reflexivity|right; exact Hle].
      * intro H. cbn in H. congruence.
    + destruct (selected (st_attempt i st)) eqn:Hsel; cbn in Hsel |- *.
      * assert (Hp : mp3_paths st = [])
          by (rewrite Hsel in Hpair; inversion Hpair; reflexivity).
        split; [|split; [|split]]; cbn; rewrite ?Hsel, ?Hp; cbn.
        -- constructor; [exact Hci|constructor].
        -- intros j [<-|[]]. eauto.
        -- discriminate.
        -- intros _. left. reflexivity.
      * split; [|split; [|split]]; cbn; auto.
        intros _. right. fold (py_sum (map (clip_duration synth comments) (mp3_paths st))). destruct (Hun Hb) as [Hcum [Hnil|Hle']].
        -- rewrite Hsel in Hpair. subst. apply Forall2_length in Hpair.
           rewrite Hnil in Hpair. discriminate.
        -- split.
           ++ intro Hnil. rewrite Hsel, Hnil in Hpair. inversion Hpair.
           ++ rewrite <- Hcum. exact Hle'.
Qed.

Lemma select_loop_probed c cs i st d :
  synth (body c) i = Probed d ->
  selected (select_loop synth target_duration i (c :: cs) st) <> [].
Proof.
  intro Hsy. cbn [select_loop]. rewrite Hsy.
  destruct (negb _).
  - destruct (selected (st_attempt i st)) eqn:E; cbn in *; rewrite E; cbn; discriminate.
  - apply selected_grows. cbn. intro H. apply app_eq_nil in H. destruct H; discriminate.
Qed.

Lemma select_loop_success cs : forall i st,
  (exists k c d, nth_error cs k = Some c /\ synth (body c) (i + k) = Probed d) ->
  selected (select_loop synth target_duration i cs st) <> [].
Proof.
  induction cs as [|c cs IH]; intros i st (k & c' & d & Hk & Hs).
  - destruct k; discriminate.
  - destruct k as [|k].
    + injection Hk as <-. rewrite Nat.add_0_r in Hs. eapply select_loop_probed; eauto.
    + destruct (synth (body c) i) as [| |d'] eqn:Hc.
      * cbn [select_loop]. rewrite Hc. apply IH. exists k, c', d.
        rewrite Nat.add_succ_r in Hs. split; [exact Hk|exact Hs].
      * cbn [select_loop]. rewrite Hc. apply IH. exists k, c', d.
        rewrite Nat.add_succ_r in Hs. split; [exact Hk|exact Hs].
      * eapply select_loop_probed; eauto.
Qed.

Lemma sel_inv_select comments :
  sel_inv synth target_duration comments (select_loop synth target_duration 0 comments init_state).
Proof.
  apply sel_inv_loop; [reflexivity|reflexivity|apply sel_inv_init].
Qed.

End SelectProofs.

(** ** Comment selection: claims *)

(** C4 (corrected). If the synthesis and the duration probe of at least
    one comment both succeed (the two calls share one [try]; a comment
    whose MP3 is written but whose probe raises is skipped like a failed
    synthesis), [_select_comments_for_duration] returns a non-empty selection,
    paired one to one with the MP3 paths, whatever [target_duration] (also
    zero or negative); a single comment that succeeds is returned alone. *)
Theorem select_nonempty_paired (synth : string -> nat -> tts_outcome)
    (target_duration : Q) (comments : list RedditComment) :
  (exists k c d, nth_error comments k = Some c /\ synth (body c) k = Probed d) ->
  fst (select_comments_for_duration synth target_duration comments) <> []
  /\ List.length (fst (select_comments_for_duration synth target_duration comments))
     = List.length (snd (select_comments_for_duration synth target_duration comments))
  /\ (forall c d, synth (body c) 0%nat = Probed d ->
        select_comments_for_duration synth target_duration [c] = ([c], [0%nat])).
Proof.
  intro Hex. unfold select_comments_for_duration. cbn [fst snd].
  split; [|split].
  - apply select_loop_success. exact Hex.
  - destruct (sel_inv_select synth target_duration comments) as (Hp & _).
    exact (Forall2_length Hp).
  - intros c d Hc. cbn. rewrite Hc.
    destruct (Qle_bool (0 + d) target_duration); reflexivity.
Qed.

Lemma select_nonempty_paired_witness :
  fst (select_comments_for_duration (fun _ _ => Probed 5) 0 [sample_comment]) <> []
  /\ List.length (fst (select_comments_for_duration (fun _ _ => Probed 5) 0 [sample_comment]))
     = List.length (snd (select_comments_for_duration (fun _ _ => Probed 5) 0 [sample_comment]))
  /\ (forall c d, Probed 5 = Probed d ->
        select_comments_for_duration (fun _ _ => Probed 5) 0 [c] = ([c], [0%nat])).
Proof.
  apply (select_nonempty_paired (fun _ _ => Probed 5) 0 [sample_comment]).
  exists 0%nat, sample_comment, 5. split; reflexivity.
Defined.

(** C4 counterexample: the synthesis of the only comment succeeds but
    probing its MP3 raises; the selection is empty. *)
Lemma select_probe_failure_empty :
  select_comments_for_duration (fun _ _ => ProbeRaised) 0 [sample_comment] = ([], []).
Proof. reflexivity. Qed.

(** C5 (corrected). The probed durations of the returned clips sum to at
    most [target_duration], unless the result is the single first accepted
    comment, or is empty with a negative [target_duration] (the empty sum
    is [0]). When a comment overflows the budget after at least one
    acceptance, its MP3 is removed, the result is the one before it, and
    no later comment is synthesized. *)
Theorem select_budget_and_stop (synth : string -> nat -> tts_outcome)
    (target_duration : Q) (comments : list RedditComment) :
  (py_sum (map (clip_duration synth comments)
             (snd (select_comments_for_duration synth target_duration comments)))
     <= target_duration
   \/ List.length (snd (select_comments_for_duration synth target_duration comments)) = 1%nat
   \/ (snd (select_comments_for_duration synth target_duration comments) = []
       /\ target_duration < 0))
  /\ (forall pre c post d,
        broke (select_loop synth target_duration 0 pre init_state) = false ->
        selected (select_loop synth target_duration 0 pre init_state) <> [] ->
        synth (body c) (List.length pre) = Probed d ->
        target_duration < cumulative_duration (select_loop synth target_duration 0 pre init_state) + d ->
        let st := select_loop synth target_duration 0 pre init_state in
        let r := select_loop synth target_duration 0 (pre ++ c :: post) init_state in
        selected r = selected st /\ mp3_paths r = mp3_paths st
        /\ removed r = removed st ++ [List.length pre]
        /\ attempted r = seq 0 (S (List.length pre))).
Proof.
  split.
  - unfold select_comments_for_duration. cbn [snd].
    destruct (sel_inv_select synth target_duration comments) as (_ & _ & Hun & Hbr).
    destruct (broke (select_loop synth target_duration 0 comments init_state)) eqn:Hb.
    + destruct (Hbr eq_refl) as [H1|[_ H2]]; [right; left; exact H1|left; exact H2].
    + destruct (Hun eq_refl) as [Hcum [Hnil|Hle]].
      * rewrite Hnil. destruct (Qlt_le_dec target_duration 0) as [Hlt|Hge].
        -- right. right. split; [reflexivity|exact Hlt].
        -- left. exact Hge.
      * left. rewrite <- Hcum. exact Hle.
  - intros pre c post d Hb Hsel Hsy Hover st r. subst st r.
    rewrite select_loop_app by reflexivity. cbv zeta. rewrite Hb. cbn [Nat.add].
    cbn [select_loop]. rewrite Hsy.
    replace (Qle_bool (cumulative_duration (st_attempt (List.length pre)
               (select_loop synth target_duration 0 pre init_state)) + d) target_duration)
      with false.
    2:{ symmetry. apply not_true_iff_false. rewrite Qle_bool_iff. cbn. lra. }
    cbn [negb]. destruct (selected (st_attempt _ _)) eqn:E; [cbn in E; congruence|].
    rewrite seq_S. cbn. repeat split.
    rewrite (select_loop_attempted synth target_duration pre 0 init_state eq_refl Hb).
    reflexivity.
Qed.

(** C5 counterexample: target [-1] and the only comment fails: the result
    is empty, its sum [0] exceeds the target, and it is not a single
    accepted comment. *)
Lemma select_budget_negative_target :
  snd (select_comments_for_duration (fun _ _ => TtsRaised) (-1) [sample_comment]) = []
  /\ ~ (py_sum (map (clip_duration (fun _ _ => TtsRaised) [sample_comment])
                  (snd (select_comments_for_duration (fun _ _ => TtsRaised) (-1)
                          [sample_comment]))) <= -1)
  /\ List.length (snd (select_comments_for_duration (fun _ _ => TtsRaised) (-1)
                         [sample_comment])) <> 1%nat.
Proof.
  split; [reflexivity|split].
  - cbn. intro H. apply Qle_bool_iff in H. vm_compute in H. discriminate.
  - cbn. discriminate.
Qed.

(** C8 (confirmed). [_select_comments_for_duration] is total: a comment
    whose synthesis or probe raises is skipped and the loop goes on with
    the next comment; the returned comments and paths stay paired (the
    [k]-th path is the file of the [k]-th comment), only comments whose
    synthesis and probe succeeded are returned, and if every comment fails
    both lists are empty. *)
Theorem select_skips_failures (synth : string -> nat -> tts_outcome)
    (target_duration : Q) (comments : list RedditComment) :
  Forall2 (fun c j => nth_error comments j = Some c)
    (fst (select_comments_for_duration synth target_duration comments))
    (snd (select_comments_for_duration synth target_duration comments))
  /\ (forall j, In j (snd (select_comments_for_duration synth target_duration comments)) ->
        exists c d, nth_error comments j = Some c /\ synth (body c) j = Probed d)
  /\ ((forall k c d, nth_error comments k = Some c -> synth (body c) k <> Probed d) ->
      fst (select_comments_for_duration synth target_duration comments) = []
      /\ snd (select_comments_for_duration synth target_duration comments) = [])
  /\ (forall pre c post,
        broke (select_loop synth target_duration 0 pre init_state) = false ->
        synth (body c) (List.length pre) = TtsRaised
        \/ synth (body c) (List.length pre) = ProbeRaised ->
        select_loop synth target_duration 0 (pre ++ c :: post) init_state
        = select_loop synth target_duration (S (List.length pre)) post
            (st_attempt (List.length pre)
               (select_loop synth target_duration 0 pre init_state))).
Proof.
  destruct (sel_inv_select synth target_duration comments) as (Hp & Hok & _ & _).
  unfold select_comments_for_duration. cbn [fst snd].
  split; [exact Hp|split; [exact Hok|split]].
  - intros Hfail.
    destruct (mp3_paths (select_loop synth target_duration 0 comments init_state))
      as [|j js] eqn:Hpaths.
    + split; [|reflexivity]. apply Forall2_length in Hp. cbn in Hp.
      destruct (selected _); [reflexivity|discriminate].
    + destruct (Hok j (or_introl eq_refl)) as (c & d & Hc & Hs).
      exfalso. exact (Hfail j c d Hc Hs).
  - intros pre c post Hb Hf. rewrite select_loop_app by reflexivity. cbv zeta.
    rewrite Hb. cbn [Nat.add select_loop].
    destruct Hf as [Hf|Hf]; rewrite Hf; reflexivity.
Qed.

(** ** Progress monitor: lemmas and claim *)

Lemma total_len_ge ds : 1 # 10 <= total_len ds.
Proof. unfold total_len. apply Q.le_max_l. Qed.

(** [render_video] passes [total_len], which is at least [0.1], so
    [max(0.001, total_len)] is [total_len] itself. *)
Lemma progress_init_total ds :
  progress_init (total_len ds) = {| pf_duration := total_len ds; pf_last := 0 |}.
Proof.
  unfold progress_init, Qmax, GenericMinMax.gmax.
  replace (1 # 1000 ?= total_len ds) with Lt; [reflexivity|].
  symmetry. apply (proj1 (Qlt_alt _ _)). pose proof (total_len_ge ds). lra.
Qed.

Lemma run_monitor_spec markers : forall st,
  run_monitor st markers
  = spec_reports (pf_last st) (pf_duration st) (map read_seconds markers).
Proof.
  induction markers as [|m ms IH]; intro st; [reflexivity|].
  destruct m as [n|]; cbn [run_monitor poll map].
  - unfold poll. cbn [read_seconds spec_reports app]. rewrite IH. reflexivity.
  - cbn [read_seconds spec_reports app]. apply IH.
Qed.

Lemma spec_reports_bounded total es : forall prev,
  0 <= prev <= 1 -> Forall (fun v => 0 <= v <= 1) (spec_reports prev total es).
Proof.
  induction es as [|[e|] es IH]; intros prev Hp; cbn [spec_reports].
  - constructor.
  - assert (Hv : 0 <= Qmax prev (Qmin 1 (e / total)) <= 1).
    { split.
      - eapply Qle_trans; [apply (proj1 Hp)|apply Q.le_max_l].
      - apply Q.max_lub; [apply (proj2 Hp)|apply Q.le_min_l]. }
    constructor; [exact Hv|apply IH; exact Hv].
  - apply IH; exact Hp.
Qed.

Lemma spec_reports_chain total es : forall prev k v w,
  nth_error (prev :: spec_reports prev total es) k = Some v ->
  nth_error (prev :: spec_reports prev total es) (S k) = Some w -> v <= w.
Proof.
  induction es as [|[e|] es IH]; intros prev k v w Hv Hw; cbn [spec_reports] in *.
  - destruct k; discriminate.
  - destruct k as [|k].
    + cbn in Hv, Hw. injection Hv as <-. injection Hw as <-. apply Q.le_max_l.
    + exact (IH _ k v w Hv Hw).
  - exact (IH prev k v w Hv Hw).
Qed.

(** C9 (confirmed). For the monitor that [render_video] starts with
    [total_len], over any sequence of polls (each one finding the last
    [out_time_ms] marker, or none), every value passed to the callback is
    [min(1.0, elapsed / total_len)] raised to the previously reported
    value; all values lie in [[0, 1]] and each is at least the one before,
    however the markers move. *)
Theorem progress_monotone_clamped (ds : list Q) (markers : list (option N)) :
  run_monitor (progress_init (total_len ds)) markers
    = spec_reports 0 (total_len ds) (map read_seconds markers)
  /\ Forall (fun v => 0 <= v <= 1) (run_monitor (progress_init (total_len ds)) markers)
  /\ (forall k v w,
        nth_error (run_monitor (progress_init (total_len ds)) markers) k = Some v ->
        nth_error (run_monitor (progress_init (total_len ds)) markers) (S k) = Some w ->
        v <= w).
Proof.
  assert (Heq : run_monitor (progress_init (total_len ds)) markers
                = spec_reports 0 (total_len ds) (map read_seconds markers)).
  { rewrite run_monitor_spec, progress_init_total. reflexivity. }
  rewrite Heq. split; [reflexivity|split].
  - apply spec_reports_bounded. split; apply Qle_refl || discriminate.
  - intros k v w Hv Hw.
    exact (spec_reports_chain (total_len ds) (map read_seconds markers) 0 (S k) v w Hv Hw).
Qed.

(** ** Text helpers: lemmas *)

Lemma is_space_sp : is_space " "%char = true.
Proof. reflexivity. Qed.

Lemma lstrip_split s : exists a, s = a ++ lstrip s.
Proof.
  induction s as [|c s [a Ha]]; [exists []; reflexivity|].
  cbn. destruct (is_space c).
  - exists (c :: a). cbn. rewrite <- Ha. reflexivity.
  - exists []. reflexivity.
Qed.

Lemma lstrip_hd s c : hd_error (lstrip s) = Some c -> is_space c = false.
Proof.
  induction s as [|x s IH]; cbn; [discriminate|].
  destruct (is_space x) eqn:E; [exact IH|]. intro H. injection H as <-. exact E.
Qed.

Lemma lstrip_id s : (forall c, hd_error s = Some c -> is_space c = false) -> lstrip s = s.
Proof.
  destruct s as [|c s]; [reflexivity|]. intro H. cbn. rewrite (H c eq_refl). reflexivity.
Qed.

Lemma py_strip_split s : exists a b, s = a ++ py_strip s ++ b.
Proof.
  destruct (lstrip_split s) as [a Ha].
  destruct (lstrip_split (rev (lstrip s))) as [b Hb].
  exists a, (rev b). unfold py_strip.
  rewrite Ha at 1. f_equal.
  rewrite <- rev_app_distr, <- Hb, rev_involutive. reflexivity.
Qed.

Lemma py_strip_last s c : hd_error (rev (py_strip s)) = Some c -> is_space c = false.
Proof. unfold py_strip. rewrite rev_involutive. apply lstrip_hd. Qed.

Lemma py_strip_hd s c : hd_error (py_strip s) = Some c -> is_space c = false.
Proof.
  intro H. unfold py_strip in H.
  destruct (lstrip_split (rev (lstrip s))) as [b Hb].
  assert (Hu : lstrip s = rev (lstrip (rev (lstrip s))) ++ rev b).
  { rewrite <- rev_app_distr, <- Hb, rev_involutive. reflexivity. }
  destruct (rev (lstrip (rev (lstrip s)))) as [|x l] eqn:E; [discriminate|].
  cbn in H. injection H as <-. apply (lstrip_hd s). rewrite Hu. reflexivity.
Qed.

Lemma py_strip_id s :
  (forall c, hd_error s = Some c -> is_space c = false) ->
  (forall c, hd_error (rev s) = Some c -> is_space c = false) -> py_strip s = s.
Proof.
  intros H1 H2. unfold py_strip. rewrite (lstrip_id s H1), (lstrip_id (rev s) H2).
  apply rev_involutive.
Qed.

Lemma Forall_infix {A} (P : A -> Prop) a r b : Forall P (a ++ r ++ b) -> Forall P r.
Proof. intro H. apply Forall_app in H as [_ H]. apply Forall_app in H as [H _]. exact H. Qed.

Lemma no_double_infix a r b :
  ~ (exists x y, a ++ r ++ b = x ++ " "%char :: " "%char :: y) ->
  ~ (exists x y, r = x ++ " "%char :: " "%char :: y).
Proof.
  intros H [x [y Hr]]. apply H. exists (a ++ x), (y ++ b). subst r.
  rewrite <- !app_assoc. reflexivity.
Qed.

Lemma py_or_nonempty s d : s <> [] -> py_or s d = s.
Proof. destruct s; [congruence|reflexivity]. Qed.

Fixpoint no_dbl (l : list ascii) : bool :=
  match l with
  | x :: ((y :: _) as t) => negb (Ascii.eqb x " " && Ascii.eqb y " ") && no_dbl t
  | _ => true
  end.

Lemma no_dbl_cons x l : no_dbl (x :: l) = true -> no_dbl l = true.
Proof. destruct l; cbn; [reflexivity|]. intro H. apply andb_prop in H. apply H. Qed.

Lemma no_dbl_cons2 x y l :
  no_dbl (x :: y :: l) = negb (Ascii.eqb x " " && Ascii.eqb y " ") && no_dbl (y :: l).
Proof. reflexivity. Qed.

Lemma no_dbl_sound l : no_dbl l = true -> ~ (exists a b, l = a ++ " "%char :: " "%char :: b).
Proof.
  intros H [a [b ->]]. revert H. induction a as [|x a IH]; [discriminate|].
  intro H. exact (IH (no_dbl_cons _ _ H)).
Qed.

Lemma collapse_ws_no_dbl s : forall b,
  no_dbl (collapse_ws b s) = true
  /\ (b = true -> forall r, collapse_ws b s <> " "%char :: r).
Proof.
  induction s as [|c s IH]; intro b; cbn; [split; [reflexivity|discriminate]|].
  destruct (is_space c) eqn:Hc.
  - destruct b.
    + exact (IH true).
    + split; [|discriminate].
      destruct (IH true) as [H1 H2].
      destruct (collapse_ws true s) as [|y l] eqn:E; [reflexivity|].
      rewrite no_dbl_cons2, H1, andb_true_r.
      destruct (Ascii.eqb_spec y " "); [|reflexivity].
      subst. exfalso. exact (H2 eq_refl l eq_refl).
  - assert (Hne : c <> " "%char) by (intro; subst; discriminate).
    split.
    + destruct (collapse_ws false s) as [|y l] eqn:E; [reflexivity|].
      rewrite no_dbl_cons2, <- E, (proj1 (IH false)), andb_true_r.
      destruct (Ascii.eqb_spec c " "); [contradiction|reflexivity].
    + intros _ r Heq. injection Heq as Heq _. contradiction.
Qed.

Lemma collapse_ws_forall (P : ascii -> Prop) s b :
  P " "%char -> Forall P s -> Forall P (collapse_ws b s).
Proof.
  intros Hsp Hs. revert b. induction Hs as [|c s Hc Hs IH]; intro b; cbn; [constructor|].
  destruct (is_space c); [destruct b; [apply IH|constructor; [exact Hsp|apply IH]]|].
  constructor; [exact Hc|apply IH].
Qed.

Lemma collapse_ws_spaces s b :
  Forall (fun c => is_space c = true -> c = " "%char) (collapse_ws b s).
Proof.
  revert b. induction s as [|c s IH]; intro b; cbn; [constructor|].
  destruct (is_space c) eqn:Hc.
  - destruct b; [apply IH|constructor; [reflexivity|apply IH]].
  - constructor; [intro H; congruence|apply IH].
Qed.

Lemma collapse_ws_id r : forall b,
  Forall (fun c => is_space c = true -> c = " "%char) r ->
  ~ (exists x y, r = x ++ " "%char :: " "%char :: y) ->
  (b = true -> forall c, hd_error r = Some c -> is_space c = false) ->
  collapse_ws b r = r.
Proof.
  induction r as [|c r IH]; intros b Hsp Hnd Hhd; [reflexivity|].
  inversion Hsp as [|? ? Hc Hr]; subst. cbn.
  assert (Hnd' : ~ (exists x y, r = x ++ " "%char :: " "%char :: y)).
  { intros [x [y Hxy]]. apply Hnd. exists (c :: x), y. rewrite Hxy. reflexivity. }
  destruct (is_space c) eqn:Hs.
  - destruct b; [rewrite (Hhd eq_refl c eq_refl) in Hs; discriminate|].
    rewrite (Hc eq_refl). f_equal. apply IH; [exact Hr|exact Hnd'|].
    intros _ d Hd. destruct r as [|d' r]; [discriminate|]. injection Hd as ->.
    destruct (is_space d) eqn:Hsd; [|reflexivity].
    exfalso. apply Hnd. exists [], r. cbn. rewrite (Hc eq_refl).
    inversion Hr as [|? ? Hd' _]; subst. rewrite (Hd' Hsd). reflexivity.
  - f_equal. apply IH; [exact Hr|exact Hnd'|discriminate].
Qed.

Lemma filter_all {A} (f : A -> bool) l : Forall (fun x => f x = true) l -> filter f l = l.
Proof. induction 1 as [|x l Hx _ IH]; [reflexivity|]. cbn. rewrite Hx, IH. reflexivity. Qed.

Lemma Forall_filter_true {A} (f : A -> bool) l : Forall (fun x => f x = true) (filter f l).
Proof. apply Forall_forall. intros x Hx. apply filter_In in Hx. apply Hx. Qed.

(** ** File and folder names: properties *)

Lemma clean_filename_video : clean_filename (list_ascii_of_string "video").
Proof.
  split; [discriminate|]. split; [repeat constructor|].
  split; [repeat constructor; discriminate|].
  split; [apply no_dbl_sound; reflexivity|].
  split; intros c H; cbn in H; injection H as <-; reflexivity.
Qed.

(** X1. [_sanitize_filename] always returns a non-empty name with none
    of the characters question mark, backslash, double quote, percent,
    star, colon, bar and angle brackets, whose only whitespace is single
    spaces, and which neither starts nor ends with whitespace. *)
Theorem sanitize_filename_clean (s : list ascii) : clean_filename (sanitize_filename s).
Proof.
  unfold sanitize_filename.
  set (f := filter (fun c => negb (fn_forbidden c)) (py_or s (list_ascii_of_string "video"))).
  destruct (py_strip (collapse_ws false f)) as [|c l] eqn:E; [exact clean_filename_video|].
  cbn [py_or].
  destruct (py_strip_split (collapse_ws false f)) as [a [b Hab]]. rewrite E in Hab.
  split; [discriminate|]. split; [|split; [|split; [|split]]].
  - apply (Forall_infix _ a _ b). rewrite <- Hab.
    apply collapse_ws_forall; [reflexivity|].
    eapply Forall_impl; [|apply Forall_filter_true]. cbv beta. intros x Hx.
    destruct (fn_forbidden x); [discriminate|reflexivity].
  - apply (Forall_infix _ a _ b). rewrite <- Hab. apply collapse_ws_spaces.
  - apply (no_double_infix a _ b). rewrite <- Hab.
    apply no_dbl_sound, collapse_ws_no_dbl.
  - rewrite <- E. apply py_strip_hd.
  - rewrite <- E. apply py_strip_last.
Qed.

Lemma sanitize_filename_fixed r : clean_filename r -> sanitize_filename r = r.
Proof.
  intros (Hne & Hf & Hsp & Hnd & Hhd & Hlast). unfold sanitize_filename.
  rewrite (py_or_nonempty r _ Hne).
  rewrite filter_all.
  2:{ eapply Forall_impl; [|exact Hf]. cbv beta. intros x ->. reflexivity. }
  rewrite (collapse_ws_id r false Hsp Hnd) by discriminate.
  rewrite (py_strip_id r Hhd Hlast). apply py_or_nonempty. exact Hne.
Qed.

(** X2. [_sanitize_filename] is idempotent: a name it produced is left
    unchanged by a second pass. *)
Theorem sanitize_filename_idempotent (s : list ascii) :
  sanitize_filename (sanitize_filename s) = sanitize_filename s.
Proof. apply sanitize_filename_fixed, sanitize_filename_clean. Qed.

(** X3. [_sanitize_folder] always returns a non-empty name made of ASCII
    letters, digits, underscores, whitespace and hyphens, not starting or
    ending with whitespace. It has no slash, backslash or dot, so
    [assets/temp/{reddit_id}] is always a single new path component under
    [assets/temp]. *)
Theorem sanitize_folder_safe (s : list ascii) :
  sanitize_folder s <> []
  /\ Forall (fun c => folder_keep c = true) (sanitize_folder s)
  /\ (forall c, hd_error (sanitize_folder s) = Some c -> is_space c = false)
  /\ (forall c, hd_error (rev (sanitize_folder s)) = Some c -> is_space c = false)
  /\ ~ In "/"%char (sanitize_folder s)
  /\ ~ In "\"%char (sanitize_folder s)
  /\ ~ In "."%char (sanitize_folder s).
Proof.
  assert (Hk : Forall (fun c => folder_keep c = true) (sanitize_folder s)
               /\ sanitize_folder s <> []
               /\ (forall c, hd_error (sanitize_folder s) = Some c -> is_space c = false)
               /\ (forall c, hd_error (rev (sanitize_folder s)) = Some c -> is_space c = false)).
  { unfold sanitize_folder.
    destruct (py_strip (filter folder_keep (py_or s []))) as [|c l] eqn:E.
    - cbn [py_or]. split; [repeat constructor|]. split; [discriminate|].
      split; intros c H; cbn in H; injection H as <-; reflexivity.
    - cbn [py_or].
      destruct (py_strip_split (filter folder_keep (py_or s []))) as [a [b Hab]].
      rewrite E in Hab. split; [|split; [discriminate|split]].
      + apply (Forall_infix _ a _ b). rewrite <- Hab. apply Forall_filter_true.
      + rewrite <- E. apply py_strip_hd.
      + rewrite <- E. apply py_strip_last. }
  destruct Hk as (Hk & Hne & Hhd & Hlast).
  split; [exact Hne|]. split; [exact Hk|]. split; [exact Hhd|]. split; [exact Hlast|].
  rewrite Forall_forall in Hk.
  split; [|split]; intro H; specialize (Hk _ H); discriminate.
Qed.

(** ** Caption text escaping: properties *)

Lemma py_replace_app old new l1 l2 :
  py_replace old new (l1 ++ l2) = py_replace old new l1 ++ py_replace old new l2.
Proof. unfold py_replace. apply flat_map_app. Qed.

Lemma py_replace_one old new x :
  py_replace old new [x] = if Ascii.eqb x old then new else [x].
Proof. unfold py_replace. cbn. apply app_nil_r. Qed.

Lemma escape_app l1 l2 :
  escape_ffmpeg_text (l1 ++ l2) = escape_ffmpeg_text l1 ++ escape_ffmpeg_text l2.
Proof. unfold escape_ffmpeg_text. rewrite !py_replace_app. reflexivity. Qed.

Lemma escape_char x :
  escape_ffmpeg_text [x] = if Ascii.eqb x bs || quote_special x then [bs; x] else [x].
Proof.
  unfold escape_ffmpeg_text, quote_special.
  destruct (Ascii.eqb_spec x bs) as [->|H1]; [reflexivity|].
  destruct (Ascii.eqb_spec x "'") as [->|H2]; [reflexivity|].
  destruct (Ascii.eqb_spec x ":") as [->|H3]; [reflexivity|].
  destruct (Ascii.eqb_spec x "[") as [->|H4]; [reflexivity|].
  destruct (Ascii.eqb_spec x "]") as [->|H5]; [reflexivity|].
  rewrite !py_replace_one.
  apply Ascii.eqb_neq in H1, H2, H3, H4, H5.
  rewrite H1. cbn [orb existsb]. rewrite !py_replace_one, H2, !py_replace_one, H3,
    !py_replace_one, H4, !py_replace_one, H5. reflexivity.
Qed.

Lemma escape_cons x l :
  escape_ffmpeg_text (x :: l)
  = (if Ascii.eqb x bs || quote_special x then [bs; x] else [x]) ++ escape_ffmpeg_text l.
Proof. rewrite <- escape_char, <- escape_app. reflexivity. Qed.

(** X4. Reading the output of [_escape_ffmpeg_text] back with backslash
    unescaping gives the word unchanged, and the output has no quote,
    colon or bracket that a backslash does not make literal, and no
    trailing lone backslash: a word cannot close the [text='...'] quote of
    its drawtext filter or end an option. *)
Theorem escape_ffmpeg_text_roundtrip (text : list ascii) :
  unescape (escape_ffmpeg_text text) = text
  /\ has_bare_special (escape_ffmpeg_text text) = false.
Proof.
  induction text as [|x l [IH1 IH2]]; [split; reflexivity|].
  rewrite escape_cons.
  destruct (Ascii.eqb x bs || quote_special x) eqn:E.
  - cbn [app unescape has_bare_special]. rewrite Ascii.eqb_refl. split; [f_equal; exact IH1|exact IH2].
  - apply orb_false_iff in E as [E1 E2]. cbn [app].
    destruct (escape_ffmpeg_text l) as [|y r] eqn:El.
    + cbn [unescape has_bare_special]. rewrite E1, E2. split; [|reflexivity].
      destruct l; [reflexivity|]. rewrite escape_cons in El.
      destruct (_ || _); discriminate.
    + split.
      * cbn [unescape]. rewrite E1. f_equal. exact IH1.
      * cbn [has_bare_special]. rewrite E1, E2. exact IH2.
Qed.

(** ** The progress bar: properties *)

Lemma pbar_target_bounds (p : Q) :
  0 <= Qmax 0 (Qmin 100 (p * 100)) <= 100.
Proof.
  split; [apply Q.le_max_l|]. apply Q.max_lub; [discriminate|apply Q.le_min_l].
Qed.

Lemma pbar_on_update_step n p :
  0 <= n <= 100 -> n <= pbar_on_update n p /\ 0 <= pbar_on_update n p <= 100.
Proof.
  intros Hn. unfold pbar_on_update.
  pose proof (pbar_target_bounds p) as Ht.
  set (t := Qmax 0 (Qmin 100 (p * 100))) in *.
  destruct (Qle_bool (t - n) 0) eqn:E.
  - split; [apply Qle_refl|exact Hn].
  - assert (~ t - n <= 0) by (intro H; apply Qle_bool_iff in H; congruence).
    split; [|split]; lra.
Qed.

Lemma pbar_fold_bounds ps : forall n,
  0 <= n <= 100 -> 0 <= fold_left pbar_on_update ps n <= 100.
Proof.
  induction ps as [|p ps IH]; intros n Hn; [exact Hn|].
  cbn. apply IH. apply (pbar_on_update_step n p Hn).
Qed.

(** X5. Whatever values the progress callback receives (even outside
    [[0, 1]] or decreasing), [on_update] keeps [pbar.n] within [[0, 100]]
    and never moves it back, and the [finally] block brings it to exactly
    [100]. *)
Theorem pbar_monotone_bounded (ps : list Q) (p : Q) :
  0 <= pbar_after ps <= 100
  /\ pbar_after ps <= pbar_after (ps ++ [p])
  /\ pbar_after (ps ++ [p]) <= 100
  /\ pbar_finish (pbar_after ps) == 100.
Proof.
  assert (Hb : 0 <= pbar_after ps <= 100) by (apply pbar_fold_bounds; split; discriminate).
  unfold pbar_after in *. rewrite fold_left_app. cbn [fold_left].
  destruct (pbar_on_update_step _ p Hb) as [Hm Hb'].
  split; [exact Hb|]. split; [exact Hm|]. split; [apply Hb'|].
  unfold pbar_finish. destruct (Qle_bool 100 _) eqn:E.
  - apply Qle_bool_iff in E. lra.
  - lra.
Qed.

Lemma last_default_Q (q : Q) l d d' : last (q :: l) d = last (q :: l) d'.
Proof.
  revert q. induction l as [|x l IH]; intro q; [reflexivity|].
  change (last (x :: l) d = last (x :: l) d'). apply IH.
Qed.

Lemma last_cons_Q (v : Q) l d : last (v :: l) d = last l v.
Proof.
  destruct l as [|q l]; [reflexivity|].
  change (last (q :: l) d = last (q :: l) v). apply last_default_Q.
Qed.

Lemma pbar_follows_reports total es : forall prev n,
  0 <= prev <= 1 -> n == 100 * prev ->
  fold_left pbar_on_update (spec_reports prev total es) n
  == 100 * last (spec_reports prev total es) prev.
Proof.
  induction es as [|[e|] es IH]; intros prev n Hp Hn; cbn [spec_reports].
  - exact Hn.
  - set (v := Qmax prev (Qmin 1 (e / total))).
    assert (Hv : prev <= v <= 1).
    { split; [apply Q.le_max_l|]. apply Q.max_lub; [apply Hp|apply Q.le_min_l]. }
    cbn [fold_left]. rewrite last_cons_Q.
    apply IH; [lra|].
    unfold pbar_on_update.
    assert (Ht : Qmax 0 (Qmin 100 (v * 100)) == v * 100).
    { assert (Hmin : Qmin 100 (v * 100) == v * 100) by (apply Q.min_r; lra).
      rewrite Hmin. apply Q.max_r. lra. }
    destruct (Qle_bool _ 0) eqn:E.
    + apply Qle_bool_iff in E. lra.
    + lra.
  - apply IH; assumption.
Qed.

(** X6. Fed by [ProgressFfmpeg] as [render_video] starts it, the encoding
    bar shows exactly [100] times the last fraction the monitor reported
    ([0] before any report), and the [finally] block ends it at [100]. *)
Theorem pbar_tracks_monitor (ds : list Q) (markers : list (option N)) :
  pbar_after (run_monitor (progress_init (total_len ds)) markers)
    == 100 * last (run_monitor (progress_init (total_len ds)) markers) 0
  /\ pbar_finish (pbar_after (run_monitor (progress_init (total_len ds)) markers)) == 100.
Proof.
  rewrite run_monitor_spec, progress_init_total. cbn [pf_last pf_duration].
  split.
  - apply pbar_follows_reports; [split; discriminate|reflexivity].
  - assert (Hb : 0 <= pbar_after (spec_reports 0 (total_len ds) (map read_seconds markers)) <= 100)
      by (apply pbar_fold_bounds; split; discriminate).
    unfold pbar_finish. destruct (Qle_bool 100 _) eqn:E.
    + apply Qle_bool_iff in E. lra.
    + lra.
Qed.

(** ** Comparison of ASCII text: lemmas *)

Lemma list_ascii_eqb_spec a b : list_ascii_eqb a b = true <-> a = b.
Proof.
  unfold list_ascii_eqb. rewrite String.eqb_eq. split; [|intros ->; reflexivity].
  intro H. apply (f_equal list_ascii_of_string) in H.
  rewrite !list_ascii_of_string_of_list_ascii in H. exact H.
Qed.

Lemma py_or_nil (s : list ascii) : py_or s [] = s.
Proof. destruct s; reflexivity. Qed.

(** ** Thread ids: properties *)

Lemma alnum_not_slash c : is_alnum c = true -> Ascii.eqb (lower_ascii "/") (lower_ascii c) = false.
Proof. destruct c as [[] [] [] [] [] [] [] []]; vm_compute; congruence. Qed.

Lemma alnum_not_space c : is_alnum c = true -> is_space c = false.
Proof. destruct c as [[] [] [] [] [] [] [] []]; vm_compute; congruence. Qed.

Lemma take_alnum_props n : forall s,
  (List.length (take_alnum n s) <= n)%nat /\ Forall (fun c => is_alnum c = true) (take_alnum n s).
Proof.
  induction n as [|n IH]; intro s; [split; [apply Nat.le_refl|constructor]|].
  destruct s as [|c s]; cbn; [split; [lia|constructor]|].
  destruct (is_alnum c) eqn:E; cbn; [|split; [lia|constructor]].
  destruct (IH s) as [H1 H2]. split; [lia|constructor; assumption].
Qed.

Lemma thread_re_search_props s g :
  thread_re_search s = Some g ->
  (5 <= List.length g <= 10)%nat /\ Forall (fun c => is_alnum c = true) g.
Proof.
  induction s as [|c s IH]; cbn; [discriminate|].
  destruct (thread_re_at (c :: s)) as [g'|] eqn:E; [|exact IH].
  intro H. injection H as <-. unfold thread_re_at in E.
  destruct (prefix_ci _ _); [|discriminate].
  destruct (5 <=? _) eqn:H5; [|discriminate]. injection E as <-.
  apply Nat.leb_le in H5. destruct (take_alnum_props 10 (skipn 10 (c :: s))) as [H1 H2].
  split; [split|]; assumption.
Qed.

Lemma thread_re_search_alnum s :
  Forall (fun c => is_alnum c = true) s -> thread_re_search s = None.
Proof.
  induction 1 as [|c s Hc _ IH]; [reflexivity|].
  cbn. unfold thread_re_at. cbn [comments_lit list_ascii_of_string prefix_ci].
  rewrite (alnum_not_slash c Hc). exact IH.
Qed.

(** X7. [extract_thread_id] either raises [ValueError] or returns 5 to 10
    ASCII letters and digits, so the URL that [fetch_thread] builds from
    it cannot carry a slash, query or other text of the input. *)
Theorem extract_thread_id_shape (url_or_id tid : list ascii) :
  extract_thread_id url_or_id = inr tid ->
  (5 <= List.length tid <= 10)%nat /\ Forall (fun c => is_alnum c = true) tid.
Proof.
  unfold extract_thread_id.
  destruct (thread_re_search _) as [g|] eqn:E.
  - intro H. injection H as <-. exact (thread_re_search_props _ _ E).
  - destruct (bare_id _) eqn:B; [|discriminate]. intro H. injection H as <-.
    unfold bare_id in B. apply andb_prop in B as [B H3]. apply andb_prop in B as [H1 H2].
    apply Nat.leb_le in H1, H2. split; [lia|].
    apply Forall_forall. exact (proj1 (forallb_forall is_alnum _) H3).
Qed.

Lemma extract_thread_id_shape_witness :
  extract_thread_id (list_ascii_of_string "https://www.reddit.com/r/AskReddit/comments/abc123/some_title/")
    = inr (list_ascii_of_string "abc123")
  /\ (5 <= List.length (list_ascii_of_string "abc123") <= 10)%nat
  /\ Forall (fun c => is_alnum c = true) (list_ascii_of_string "abc123").
Proof.
  split; [vm_compute; reflexivity|].
  apply (extract_thread_id_shape
           (list_ascii_of_string "https://www.reddit.com/r/AskReddit/comments/abc123/some_title/")).
  vm_compute. reflexivity.
Defined.

(** X8. A bare id of 5 to 10 ASCII letters and digits is returned by
    [extract_thread_id] unchanged. *)
Theorem extract_thread_id_bare (s : list ascii) :
  bare_id s = true -> extract_thread_id s = inr s.
Proof.
  intro B. unfold extract_thread_id. rewrite py_or_nil.
  assert (Ha : Forall (fun c => is_alnum c = true) s).
  { unfold bare_id in B. apply andb_prop in B as [_ B]. apply Forall_forall.
    exact (proj1 (forallb_forall is_alnum _) B). }
  assert (Hs : py_strip s = s).
  { apply py_strip_id.
    - intros c Hc. destruct s as [|x s]; [discriminate|]. injection Hc as <-.
      inversion Ha; subst. apply alnum_not_space. assumption.
    - intros c Hc. apply alnum_not_space. rewrite Forall_forall in Ha. apply Ha.
      apply in_rev. destruct (rev s); [discriminate|]. injection Hc as <-. left. reflexivity. }
  rewrite Hs, (thread_re_search_alnum s Ha), B. reflexivity.
Qed.

Lemma extract_thread_id_bare_witness :
  bare_id (list_ascii_of_string "Abc12") = true
  /\ extract_thread_id (list_ascii_of_string "Abc12") = inr (list_ascii_of_string "Abc12").
Proof.
  split; [reflexivity|]. apply extract_thread_id_bare. reflexivity.
Defined.

(** ** Post-processing in [fetch_thread]: properties *)

Lemma py_strip_idem s : py_strip (py_strip s) = py_strip s.
Proof.
  apply py_strip_id; [apply py_strip_hd|apply py_strip_last].
Qed.

Lemma keep_comment_props r c :
  keep_comment r = Some c ->
  (5 <= List.length (list_ascii_of_string (body c)))%nat
  /\ list_ascii_of_string (body c) <> list_ascii_of_string "[deleted]"
  /\ list_ascii_of_string (body c) <> list_ascii_of_string "[removed]"
  /\ py_strip (list_ascii_of_string (body c)) = list_ascii_of_string (body c).
Proof.
  unfold keep_comment.
  destruct (rc_kind r) as [k|]; [|discriminate].
  destruct (String.eqb k "t1"); [|discriminate].
  set (b := py_strip (opt_or (rc_body r) [])).
  destruct (match b with [] => true | _ => false end) eqn:E0; [discriminate|].
  destruct (list_ascii_eqb b (list_ascii_of_string "[deleted]")) eqn:E1; [discriminate|].
  destruct (list_ascii_eqb b (list_ascii_of_string "[removed]")) eqn:E2; [discriminate|].
  cbn [orb]. destruct (List.length b <? 5) eqn:E3; [discriminate|].
  intro H. injection H as <-. cbn [body]. rewrite list_ascii_of_string_of_list_ascii.
  apply Nat.ltb_ge in E3.
  split; [exact E3|]. split; [|split].
  - intro H. apply list_ascii_eqb_spec in H. congruence.
  - intro H. apply list_ascii_eqb_spec in H. congruence.
  - apply py_strip_idem.
Qed.

Lemma keep_comments_In raw c : In c (keep_comments raw) -> exists r, In r raw /\ keep_comment r = Some c.
Proof.
  induction raw as [|r raw IH]; cbn; [contradiction|].
  destruct (keep_comment r) as [c'|] eqn:E.
  - intros [<-|H]; [exists r; auto|]. destruct (IH H) as [r' [H1 H2]]. exists r'; auto.
  - intro H. destruct (IH H) as [r' [H1 H2]]. exists r'; auto.
Qed.

Lemma insert_by_score_In x l y : In y (insert_by_score x l) -> y = x \/ In y l.
Proof.
  induction l as [|z l IH]; cbn; [intros [<-|[]]; left; reflexivity|].
  destruct (score z <? score x)%Z.
  - intros [<-|H]; [left; reflexivity|right; exact H].
  - intros [<-|H]; [right; left; reflexivity|]. destruct (IH H); [left|right; right]; assumption.
Qed.

Lemma sort_by_score_desc_In_gen l acc y :
  In y (fold_left (fun acc x => insert_by_score x acc) l acc) -> In y l \/ In y acc.
Proof.
  revert acc. induction l as [|x l IH]; intros acc H; cbn in H; [right; exact H|]. destruct (IH _ H) as [H1|H1]; [left; right; exact H1|].
  destruct (insert_by_score_In _ _ _ H1) as [<-|H2]; [left; left; reflexivity|right; exact H2].
Qed.

Lemma sort_by_score_desc_In l y : In y (sort_by_score_desc l) -> In y l.
Proof.
  intro H. destruct (sort_by_score_desc_In_gen l [] y H) as [H1|[]]. exact H1.
Qed.

Lemma insert_by_score_hd a x l :
  HdRel score_desc a l -> score_desc a x -> HdRel score_desc a (insert_by_score x l).
Proof.
  intros H Hx. destruct l as [|y l]; cbn; [constructor; exact Hx|].
  destruct (score y <? score x)%Z; constructor; [exact Hx|]. inversion H; assumption.
Qed.

Lemma insert_by_score_sorted x l :
  Sorted score_desc l -> Sorted score_desc (insert_by_score x l).
Proof.
  induction l as [|y l IH]; intro H; cbn; [repeat constructor|].
  destruct (score y <? score x)%Z eqn:E.
  - constructor; [exact H|]. constructor. apply Z.ltb_lt in E. unfold score_desc. lia.
  - apply Z.ltb_ge in E. inversion H as [|? ? Hl Hh]; subst.
    constructor; [apply IH; exact Hl|]. apply insert_by_score_hd; [exact Hh|].
    unfold score_desc. lia.
Qed.

Lemma sort_by_score_desc_sorted l : Sorted score_desc (sort_by_score_desc l).
Proof.
  unfold sort_by_score_desc. cut (forall acc, Sorted score_desc acc ->
    Sorted score_desc (fold_left (fun acc x => insert_by_score x acc) l acc)).
  { intro H. apply H. constructor. }
  induction l as [|x l IH]; intros acc Ha; cbn; [exact Ha|].
  apply IH. apply insert_by_score_sorted. exact Ha.
Qed.

Lemma firstn_sorted n l : Sorted score_desc l -> Sorted score_desc (firstn n l).
Proof.
  revert n. induction l as [|x l IH]; intros n H; destruct n as [|n]; cbn; [constructor..|].
  inversion H as [|? ? Hl Hh]; subst. constructor; [apply IH; exact Hl|].
  destruct l as [|y l]; destruct n as [|n]; cbn; constructor. inversion Hh; assumption.
Qed.

Lemma py_prefix_sorted l k : Sorted score_desc l -> Sorted score_desc (py_prefix l k).
Proof. unfold py_prefix. destruct (0 <=? k)%Z; apply firstn_sorted. Qed.

Lemma py_prefix_In {A} (l : list A) k y : In y (py_prefix l k) -> In y l.
Proof.
  unfold py_prefix. destruct (0 <=? k)%Z; intro H;
    [rewrite <- (firstn_skipn (Z.to_nat k) l) | rewrite <- (firstn_skipn (List.length l - Z.to_nat (- k)) l)];
    apply in_or_app; left; exact H.
Qed.

(** X9. What [fetch_thread] returns: every comment has a stripped body
    of at least 5 characters that is neither [[deleted]] nor [[removed]];
    a nonnegative [max_comments] bounds the number of comments; with
    [prefer_top] the comments are in nonincreasing score; and the title is
    never empty. *)
Theorem fetch_thread_result_props (thread_id_arg : string) (post : raw_post)
    (raw : list raw_comment) (max_comments : Z) (prefer_top : bool) :
  Forall (fun c =>
      (5 <= List.length (list_ascii_of_string (body c)))%nat
      /\ list_ascii_of_string (body c) <> list_ascii_of_string "[deleted]"
      /\ list_ascii_of_string (body c) <> list_ascii_of_string "[removed]"
      /\ py_strip (list_ascii_of_string (body c)) = list_ascii_of_string (body c))
    (comments (fetch_thread_result thread_id_arg post raw max_comments prefer_top))
  /\ ((0 <= max_comments)%Z ->
      (List.length (comments (fetch_thread_result thread_id_arg post raw max_comments prefer_top))
       <= Z.to_nat max_comments)%nat)
  /\ (prefer_top = true ->
      Sorted score_desc (comments (fetch_thread_result thread_id_arg post raw max_comments prefer_top)))
  /\ title (fetch_thread_result thread_id_arg post raw max_comments prefer_top) <> [].
Proof.
  unfold fetch_thread_result. cbn [comments title].
  split; [|split; [|split]].
  - apply Forall_forall. intros c Hc. apply py_prefix_In in Hc.
    assert (Hk : In c (keep_comments raw)).
    { destruct prefer_top; [apply sort_by_score_desc_In|]; exact Hc. }
    destruct (keep_comments_In _ _ Hk) as [r [_ Hr]]. exact (keep_comment_props r c Hr).
  - intro H. unfold py_prefix. apply Z.leb_le in H. rewrite H.
    rewrite length_firstn. apply Nat.le_min_l.
  - intros ->. apply py_prefix_sorted. apply sort_by_score_desc_sorted.
  - destruct (py_strip (opt_or (rp_title post) [])); discriminate.
Qed.

(** ** Background audio in the two strategies *)

(** X10. The inline strategy mixes in the background audio unless the
    path is empty, the volume is [<= 0] or the file is missing; the script
    strategy only if the path is nonempty, the file exists and the volume
    is [> 0]. The two tests agree on every volume but NaN: there the inline
    graph mixes the volume-scaled background with the narration, and the
    script command leaves it out and passes the narration through with
    [anull]. Within the script command the two uses of its test agree:
    the narration is input 1, and with background audio the background
    file is the last input, at index [len(image_paths) + 2], which the
    [volume] line reads; without it no input follows the images. *)
Theorem render_bg_audio_nan (exists_file : string -> bool) (a : render_args) :
  (bg_audio_volume a <> PyNaN ->
   si_audio (render_video_standard exists_file a)
   = (if use_bg_audio exists_file a
      then AMixLongest (AInput (audio_mp3 a))
             (AVolume (AInput (opt_str (bg_audio_mp3 a))) (bg_audio_volume a))
      else AInput (audio_mp3 a)))
  /\ (truthy (opt_str (bg_audio_mp3 a)) = true -> exists_file (opt_str (bg_audio_mp3 a)) = true ->
      bg_audio_volume a = PyNaN ->
      si_audio (render_video_standard exists_file a)
        = AMixLongest (AInput (audio_mp3 a)) (AVolume (AInput (opt_str (bg_audio_mp3 a))) PyNaN)
      /\ use_bg_audio exists_file a = false
      /\ In (FAnull (LInA 1) LAout) (sc_filter (render_video_with_script exists_file a)))
  /\ nth_error (sc_inputs (render_video_with_script exists_file a)) 1 = Some (audio_mp3 a)
  /\ (use_bg_audio exists_file a = true ->
      nth_error (sc_inputs (render_video_with_script exists_file a))
        (List.length (image_paths a) + 2) = Some (opt_str (bg_audio_mp3 a))
      /\ List.length (sc_inputs (render_video_with_script exists_file a))
         = (List.length (image_paths a) + 3)%nat
      /\ In (FVolume (LInA (List.length (image_paths a) + 2)) (bg_audio_volume a) LBgAudio)
            (sc_filter (render_video_with_script exists_file a))
      /\ In (FAmix (LInA 1) LBgAudio LAout) (sc_filter (render_video_with_script exists_file a)))
  /\ (use_bg_audio exists_file a = false ->
      List.length (sc_inputs (render_video_with_script exists_file a))
        = (List.length (image_paths a) + 2)%nat
      /\ In (FAnull (LInA 1) LAout) (sc_filter (render_video_with_script exists_file a))).
Proof.
  assert (Hnull : use_bg_audio exists_file a = false ->
                  List.length (sc_inputs (render_video_with_script exists_file a))
                    = (List.length (image_paths a) + 2)%nat
                  /\ In (FAnull (LInA 1) LAout) (sc_filter (render_video_with_script exists_file a))).
  { intro U. unfold render_video_with_script.
    destruct (script_overlay_lines _ _ _ _ _ _ _) as [lines cs].
    cbn [sc_inputs sc_filter]. rewrite U. cbn [app]. split.
    - cbn [List.length]. rewrite length_app. cbn [List.length]. lia.
    - apply in_or_app. right. left. reflexivity. }
  split; [|split; [|split; [|split; [|exact Hnull]]]].
  - intro Hn. unfold render_video_standard, merge_background_audio, use_bg_audio.
    cbn [si_audio].
    destruct (bg_audio_volume a) as [q| | |]; [|..|contradiction]; cbn [py_le0 py_gt0];
      try destruct (Qle_bool q 0); destruct (truthy _), (exists_file _); reflexivity.
  - intros Ht He Hn. assert (U : use_bg_audio exists_file a = false)
      by (unfold use_bg_audio; rewrite Ht, He, Hn; reflexivity).
    split; [|split; [exact U|exact (proj2 (Hnull U))]].
    unfold render_video_standard, merge_background_audio. cbn [si_audio].
    rewrite Ht, He, Hn. reflexivity.
  - unfold render_video_with_script.
    destruct (script_overlay_lines _ _ _ _ _ _ _) as [lines cs]. reflexivity.
  - intro U. unfold render_video_with_script.
    destruct (script_overlay_lines _ _ _ _ _ _ _) as [lines cs].
    cbn [sc_inputs sc_filter]. rewrite U. cbn [app]. split; [|split; [|split]].
    + replace (List.length (image_paths a) + 2)%nat with (S (S (List.length (image_paths a)))) by lia.
      cbn [nth_error]. rewrite nth_error_app2, Nat.sub_diag; [reflexivity|lia].
    + cbn [List.length]. rewrite length_app. cbn [List.length]. lia.
    + apply in_or_app. right. left. reflexivity.
    + apply in_or_app. right. right. left. reflexivity.
Qed.

(** ** Audio concatenation *)

Lemma sum_probed_ok (probe_duration : string -> option Q) (ps : list string) :
  (forall p, In p ps -> probe_duration p <> None) ->
  forall acc, exists d,
    sum_probed probe_duration ps acc = (map RunProbe ps, inr d)
    /\ acc <= d
    /\ (forall p x, In p ps -> probe_duration p = Some x -> acc + Qmax 0 x <= d).
Proof.
  induction ps as [|p0 r IH]; intros Hall acc.
  - exists acc. split; [reflexivity|split; [apply Qle_refl|intros p x []]].
  - destruct (probe_duration p0) as [x0|] eqn:E0;
      [|exfalso; apply (Hall p0); [left; reflexivity|exact E0]].
    destruct (IH (fun p Hp => Hall p (or_intror Hp)) (acc + Qmax 0 x0)) as [d [Hs [Hle Hx]]].
    exists d. cbn [sum_probed]. unfold bind, probe_call. rewrite E0, Hs.
    assert (H0 : 0 <= Qmax 0 x0) by apply Q.le_max_l.
    split; [reflexivity|split; [lra|]].
    intros p x [<-|Hp] Hpx.
    + rewrite E0 in Hpx. injection Hpx as <-. exact Hle.
    + specialize (Hx p x Hp Hpx). lra.
Qed.

Lemma sum_probed_fail (probe_duration : string -> option Q) (pre post : list string) (p : string) :
  Forall (fun q => probe_duration q <> None) pre -> probe_duration p = None ->
  forall acc,
  sum_probed probe_duration (pre ++ p :: post) acc
  = (map RunProbe (pre ++ [p]),
     inl (FfmpegError "ffprobe error (see stderr output for detail)")).
Proof.
  intros Hpre Hp. induction Hpre as [|q pre Hq _ IH]; intro acc.
  - cbn [app sum_probed]. unfold bind, probe_call. rewrite Hp. reflexivity.
  - cbn [app sum_probed]. unfold bind at 1, probe_call.
    destruct (probe_duration q) as [x|] eqn:E; [|contradiction].
    rewrite IH. reflexivity.
Qed.

Lemma concat_audio_nonempty (ffmpeg_ok : ext_call -> bool)
    (probe_duration : string -> option Q) (audio_paths : list string) (out_mp3 : string) :
  audio_paths <> [] ->
  concat_audio ffmpeg_ok probe_duration audio_paths out_mp3
  = bind (run_process ffmpeg_ok (RunConcat audio_paths out_mp3)
            "ffmpeg failed to concatenate audio files")
         (fun _ => sum_probed probe_duration audio_paths 0).
Proof. intro H. destruct audio_paths; [contradiction|reflexivity]. Qed.

(** X11. [concat_audio] on a nonempty list runs the concatenation first.
    If it fails, it raises [RuntimeError] and probes nothing. If it
    succeeds, the inputs are probed in order: when every probe succeeds
    each input is probed once and the result is a total that is
    nonnegative and at least the probed duration of every input; when a
    probe raises, probing stops at that input and its [ffmpeg.Error]
    propagates, with no total returned. *)
Theorem concat_audio_probes (ffmpeg_ok : ext_call -> bool)
    (probe_duration : string -> option Q) (audio_paths : list string) (out_mp3 : string) :
  audio_paths <> [] ->
  (ffmpeg_ok (RunConcat audio_paths out_mp3) = false ->
   exists msg, concat_audio ffmpeg_ok probe_duration audio_paths out_mp3
               = ([RunConcat audio_paths out_mp3], inl (RuntimeError msg)))
  /\ (ffmpeg_ok (RunConcat audio_paths out_mp3) = true ->
      (forall p, In p audio_paths -> probe_duration p <> None) ->
      trace (concat_audio ffmpeg_ok probe_duration audio_paths out_mp3)
        = RunConcat audio_paths out_mp3 :: map RunProbe audio_paths
      /\ exists d, outcome (concat_audio ffmpeg_ok probe_duration audio_paths out_mp3) = inr d
         /\ 0 <= d
         /\ (forall p x, In p audio_paths -> probe_duration p = Some x -> x <= d))
  /\ (ffmpeg_ok (RunConcat audio_paths out_mp3) = true ->
      forall pre p post, audio_paths = pre ++ p :: post ->
      Forall (fun q => probe_duration q <> None) pre -> probe_duration p = None ->
      concat_audio ffmpeg_ok probe_duration audio_paths out_mp3
      = (RunConcat audio_paths out_mp3 :: map RunProbe (pre ++ [p]),
         inl (FfmpegError "ffprobe error (see stderr output for detail)"))).
Proof.
  intro Hne. rewrite (concat_audio_nonempty _ _ _ _ Hne). unfold bind at 1, run_process.
  split; [|split]; intro Hok; rewrite Hok.
  - eexists. reflexivity.
  - intro Hall. destruct (sum_probed_ok probe_duration audio_paths Hall 0) as [d [Hs [Hle Hx]]].
    rewrite Hs. split; [reflexivity|]. exists d. split; [reflexivity|]. split; [exact Hle|].
    intros p x Hp Hpx. specialize (Hx p x Hp Hpx).
    assert (x <= Qmax 0 x) by apply Q.le_max_r. lra.
  - intros pre p post -> Hpre Hp. rewrite (sum_probed_fail _ pre post p Hpre Hp). reflexivity.
Qed.

Lemma concat_audio_probes_witness :
  ["a.mp3"%string] <> []
  /\ ((fun _ : ext_call => true) (RunConcat ["a.mp3"%string] "out.mp3") = false ->
      exists msg, concat_audio (fun _ => true) (fun _ => Some 1) ["a.mp3"%string] "out.mp3"
                  = ([RunConcat ["a.mp3"%string] "out.mp3"], inl (RuntimeError msg)))
  /\ ((fun _ : ext_call => true) (RunConcat ["a.mp3"%string] "out.mp3") = true ->
      (forall p, In p ["a.mp3"%string] -> (fun _ : string => Some 1) p <> None) ->
      trace (concat_audio (fun _ => true) (fun _ => Some 1) ["a.mp3"%string] "out.mp3")
        = RunConcat ["a.mp3"%string] "out.mp3" :: map RunProbe ["a.mp3"%string]
      /\ exists d, outcome (concat_audio (fun _ => true) (fun _ => Some 1)
                              ["a.mp3"%string] "out.mp3") = inr d
         /\ 0 <= d
         /\ (forall p x, In p ["a.mp3"%string] -> (fun _ : string => Some 1) p = Some x -> x <= d))
  /\ ((fun _ : ext_call => true) (RunConcat ["a.mp3"%string] "out.mp3") = true ->
      forall pre p post, ["a.mp3"%string] = pre ++ p :: post ->
      Forall (fun q => (fun _ : string => Some 1) q <> None) pre ->
      (fun _ : string => Some 1) p = None ->
      concat_audio (fun _ => true) (fun _ => Some 1) ["a.mp3"%string] "out.mp3"
      = (RunConcat ["a.mp3"%string] "out.mp3" :: map RunProbe (pre ++ [p]),
         inl (FfmpegError "ffprobe error (see stderr output for detail)"))).
Proof.
  split; [discriminate|].
  apply (concat_audio_probes (fun _ => true) (fun _ => Some 1) ["a.mp3"%string] "out.mp3").
  discriminate.
Defined.

(** ** The progress file: [re.findall] and the last marker *)

Lemma progress_findall_skip (l r : list ascii) :
  progress_findall (List.length l) (l ++ r) = progress_findall 0 r.
Proof. induction l as [|x l IH]; [reflexivity|]. exact IH. Qed.

Lemma prefix_cs_app_short (p s X : list ascii) :
  prefix_cs p (s ++ X) = true -> (List.length s < List.length p)%nat ->
  prefix_cs (skipn (List.length s) p) X = true.
Proof.
  revert p. induction s as [|y s IH]; intros p H Hl; [exact H|].
  destruct p as [|x p]; cbn in Hl; [lia|].
  cbn in H. apply andb_prop in H as [_ H]. cbn [List.length skipn].
  apply IH; [exact H|lia].
Qed.

(** The letter [o] occurs in [out_time_ms=] only at its head. *)
Lemma out_time_lit_o_head (k : nat) (X : list ascii) :
  (1 <= k < 12)%nat -> prefix_cs (skipn k out_time_lit) ("o"%char :: X) = false.
Proof.
  intro Hk. do 12 (destruct k as [|k]; [try lia; reflexivity|]). lia.
Qed.

Lemma take_digits_app_len (l X : list ascii) :
  (forall x r, X = x :: r -> is_digit x = false) ->
  (List.length (take_digits (l ++ X)) <= List.length l)%nat.
Proof.
  intro HX. induction l as [|y l IH]; cbn.
  - destruct X as [|x r]; [apply Nat.le_refl|]. cbn. rewrite (HX x r eq_refl). apply Nat.le_refl.
  - destruct (is_digit y); cbn; lia.
Qed.

(** A match that starts in [s] ends in [s] when the text after [s]
    starts with [o]. *)
Lemma progress_re_at_within (s X : list ascii) g :
  s <> [] -> (exists X', X = "o"%char :: X') ->
  progress_re_at (s ++ X) = Some g -> (12 + List.length g <= List.length s)%nat.
Proof.
  intros Hs [X' ->] H. unfold progress_re_at in H.
  destruct (prefix_cs out_time_lit (s ++ "o"%char :: X')) eqn:Hp; [|discriminate].
  assert (Hl : (12 <= List.length s)%nat).
  { destruct (Nat.lt_ge_cases (List.length s) 12) as [Hlt|Hge]; [|exact Hge].
    exfalso. pose proof (prefix_cs_app_short _ _ _ Hp Hlt) as Hq.
    destruct s; [contradiction|].
    rewrite out_time_lit_o_head in Hq; [discriminate|cbn [List.length]; cbn [List.length] in Hlt; lia]. }
  rewrite skipn_app in H. replace (12 - List.length s)%nat with 0%nat in H by lia.
  change (skipn 0 ("o"%char :: X')) with ("o"%char :: X') in H.
  pose proof (take_digits_app_len (skipn 12 s) ("o"%char :: X')) as Ht.
  destruct (take_digits (skipn 12 s ++ "o"%char :: X')) as [|c cs]; [discriminate|].
  injection H as <-.
  assert (Ho : forall x r, "o"%char :: X' = x :: r -> is_digit x = false)
    by (intros x r E; injection E as <- _; reflexivity).
  specialize (Ht Ho). rewrite length_skipn in Ht. lia.
Qed.

Lemma progress_findall_prefix (c X : list ascii) :
  (exists X', X = "o"%char :: X') ->
  forall skip, (skip <= List.length c)%nat ->
  exists pre, progress_findall skip (c ++ X) = pre ++ progress_findall 0 X.
Proof.
  intro HX. induction c as [|a c IH]; intros skip Hk.
  - cbn in Hk. replace skip with 0%nat by lia. exists []. reflexivity.
  - destruct skip as [|k].
    + cbn [app progress_findall].
      destruct (progress_re_at (a :: c ++ X)) as [g|] eqn:E.
      * assert (Hg : (12 + List.length g <= List.length (a :: c))%nat).
        { apply (progress_re_at_within (a :: c) X); [discriminate|exact HX|exact E]. }
        cbn [List.length] in Hg.
        destruct (IH (12 + List.length g - 1)%nat) as [pre Hpre]; [lia|].
        exists (g :: pre). rewrite Hpre. reflexivity.
      * destruct (IH 0%nat) as [pre Hpre]; [lia|]. exists pre. exact Hpre.
    + cbn [List.length] in Hk. destruct (IH k) as [pre Hpre]; [lia|].
      exists pre. exact Hpre.
Qed.

Lemma take_digits_all (ds rest : list ascii) :
  Forall (fun c => is_digit c = true) ds ->
  (forall x r, rest = x :: r -> is_digit x = false) ->
  take_digits (ds ++ rest) = ds.
Proof.
  intros Hd Hr. induction Hd as [|x ds Hx _ IH]; cbn.
  - destruct rest as [|x r]; [reflexivity|]. cbn. rewrite (Hr x r eq_refl). reflexivity.
  - rewrite Hx, IH. reflexivity.
Qed.

Lemma prefix_cs_app_refl (p s : list ascii) : prefix_cs p (p ++ s) = true.
Proof.
  induction p as [|x p IH]; [reflexivity|]. cbn. rewrite Ascii.eqb_refl. exact IH.
Qed.

Lemma out_time_lit_split :
  exists tl, out_time_lit = "o"%char :: tl /\ List.length tl = 11%nat.
Proof. eexists. split; reflexivity. Qed.

Lemma progress_re_at_marker (ds rest : list ascii) :
  ds <> [] -> Forall (fun x => is_digit x = true) ds ->
  (forall x r, rest = x :: r -> is_digit x = false) ->
  progress_re_at (out_time_lit ++ ds ++ rest) = Some ds.
Proof.
  intros Hne Hd Hr. unfold progress_re_at. rewrite prefix_cs_app_refl.
  change (skipn 12 (out_time_lit ++ ds ++ rest)) with (ds ++ rest).
  rewrite (take_digits_all ds rest Hd Hr).
  destruct ds; [congruence|reflexivity].
Qed.

(** X12. [_read_seconds] reports the marker written last: if the progress
    file ends with [out_time_ms=] and a nonempty run of digits, followed
    by text that neither continues the digits nor holds another marker,
    it returns that number divided by [1_000_000], whatever comes before,
    earlier markers included. *)
Theorem read_seconds_last_marker (c ds rest : list ascii) :
  ds <> [] -> Forall (fun x => is_digit x = true) ds ->
  (forall x r, rest = x :: r -> is_digit x = false) ->
  progress_findall 0 rest = [] ->
  read_seconds_file (Some (c ++ out_time_lit ++ ds ++ rest))
  = Some ((Z.of_N (digits_value ds) # 1) / 1000000).
Proof.
  intros Hne Hd Hr Hf. unfold read_seconds_file, progress_marker.
  destruct (progress_findall_prefix c (out_time_lit ++ ds ++ rest))
    with (skip := 0%nat) as [pre Hpre]; [eexists; reflexivity|lia|].
  rewrite Hpre.
  assert (HX : progress_findall 0 (out_time_lit ++ ds ++ rest) = [ds]).
  { pose proof (progress_re_at_marker ds rest Hne Hd Hr) as Hre.
    destruct out_time_lit_split as [tl [Hlit Htl]].
    rewrite Hlit in Hre |- *. cbn [app] in Hre |- *.
    cbn [progress_findall]. rewrite Hre.
    rewrite app_assoc.
    replace (12 + List.length ds - 1)%nat with (List.length (tl ++ ds))
      by (rewrite length_app; lia).
    rewrite progress_findall_skip, Hf. reflexivity. }
  rewrite HX, rev_app_distr. reflexivity.
Qed.

Lemma read_seconds_last_marker_witness :
  read_seconds_file
    (Some (list_ascii_of_string "out_time_ms=1000000" ++ out_time_lit
           ++ list_ascii_of_string "2500000" ++ list_ascii_of_string " progress=end"))
  = Some ((Z.of_N (digits_value (list_ascii_of_string "2500000")) # 1) / 1000000).
Proof.
  apply read_seconds_last_marker.
  - discriminate.
  - repeat constructor.
  - intros x r E. injection E as <- _. reflexivity.
  - vm_compute. reflexivity.
Defined.
